(** * fcntllock: whole-file fcntl locks

    A shallow embedding of [main.go] of package [fcntllock] and the
    properties of its lock life cycle.

    The package talks to the operating system ([os.Stat], [os.MkdirAll],
    [os.OpenFile], [syscall.FcntlFlock], [Close]) and to a
    [context.Context].  Both are kept abstract: an [OS W] packs the
    answers of these calls as functions of a world [W], and the
    theorems about the program hold for every such [OS].  The
    embedding threads the receiver [*Lock], the world and a chronological
    log of the calls that were made through a state monad.  A small
    kernel model, [Kernel], instantiates the interface for the concrete
    runs. *)

From Stdlib Require Import ZArith List Ascii String Bool Lia.
Import ListNotations.

Local Open Scope string_scope.
Local Open Scope Z_scope.

(** ** Data of the Go program *)

(** Go [error] values the package produces or forwards. *)
Inductive error : Type :=
| Errno (errno : Z)                        (* syscall.Errno *)
| PathError (op path : string) (errno : Z) (* *fs.PathError around an Errno *)
| errorString (s : string)                 (* errors.New(s) *)
| Canceled                                 (* context.Canceled *)
| DeadlineExceeded.                        (* context.DeadlineExceeded *)

(** [err.Error()], as far as the package builds the text itself. *)
Definition Error (e : error) : option string :=
  match e with
  | errorString s => Some s
  | _ => None
  end.

Definition ENOENT : Z := 2.
Definition EBADF : Z := 9.
Definition EAGAIN : Z := 11.
Definition EACCES : Z := 13.
Definition ENOTDIR : Z := 20.

(** [os.IsNotExist]: unwraps a [*PathError] and compares with [ENOENT]. *)
Definition os_IsNotExist (e : error) : bool :=
  match e with
  | Errno n => n =? ENOENT
  | PathError _ _ n => n =? ENOENT
  | _ => false
  end.

(** [os.FileInfo], of which only [IsDir] is read. *)
Record FileInfo : Type := mkFileInfo { IsDir : bool }.

(** [*os.File]: the descriptor [Fd()] returns and the name it was opened with. *)
Record File : Type := mkFile { Fd : Z; Name : string }.

(** [syscall.Flock_t]. *)
Record Flock_t : Type := mkFlock
  { Start : Z; Len : Z; Pid : Z; Type_ : Z; Whence : Z }.

Definition F_WRLCK : Z := 1.
Definition F_UNLCK : Z := 2.
Definition F_SETLK : Z := 6.
Definition F_SETLKW : Z := 7.
Definition SeekStart : Z := 0.
Definition O_RDWR : Z := 2.
Definition O_CREATE : Z := 64.
Definition O_SYNC : Z := 1052672.

(** [int32(x)]: conversion of a Go [int] with wrap-around. *)
Definition int32 (x : Z) : Z := (x + 2 ^ 31) mod 2 ^ 32 - 2 ^ 31.

(** [time.Duration]. *)
Definition Duration : Type := Z.

(** Which case of the [select] in [try] was taken. *)
Inductive Ready : Type := CtxDone | TimerFired.

(** [Lock]: the path, the embedded [ReadWriteSeekCloser] (nil or a file)
    and [fd]. *)
Record Lock : Type := mkLock
  { path : string;
    ReadWriteSeekCloser : option File;
    fd : Z }.

Definition lockDirPerm : Z := 448. (* 0700 *)

(** [New]. *)
Definition New (p : string) : Lock :=
  {| path := p; ReadWriteSeekCloser := None; fd := 0 |}.

(** ** The operating system and the context, as an interface *)

(** One entry of the call log: the call, its arguments and its answer. *)
Inductive Event : Type :=
| EvStat (name : string) (r : FileInfo + error)
| EvMkdirAll (dir : string) (perm : Z) (r : option error)
| EvOpenFile (name : string) (flag perm : Z) (r : File + error)
| EvFcntlFlock (fd : Z) (cmd : Z) (ft : Flock_t) (r : option error)
| EvClose (f : File) (r : option error)
| EvCtxErr (r : option error)
| EvSelect (d : Duration) (r : Ready).

Record OS (W : Type) : Type := mkOS
  { os_Stat : string -> W -> (FileInfo + error) * W;
    os_MkdirAll : string -> Z -> W -> option error * W;
    os_OpenFile : string -> Z -> Z -> W -> (File + error) * W;
    os_Getpid : W -> Z;
    syscall_FcntlFlock : Z -> Z -> Flock_t -> W -> option error * W;
    file_Close : File -> W -> option error * W;
    (* ctx.Err() *)
    ctx_Err : W -> option error * W;
    (* select { case <-ctx.Done(): ... case <-time.After(d): ... } *)
    select_Done_After : Duration -> W -> Ready * W }.

Arguments os_Stat {W}.
Arguments os_MkdirAll {W}.
Arguments os_OpenFile {W}.
Arguments os_Getpid {W}.
Arguments syscall_FcntlFlock {W}.
Arguments file_Close {W}.
Arguments ctx_Err {W}.
Arguments select_Done_After {W}.

(** ** The state monad of the embedding *)

Record St (W : Type) : Type := mkSt
  { lck : Lock;          (* the receiver *)
    world : W;           (* the operating system and the context *)
    trace : list Event } (* the calls made so far, oldest first *).

Arguments mkSt {W}.
Arguments lck {W}.
Arguments world {W}.
Arguments trace {W}.

Definition M (W A : Type) : Type := St W -> A * St W.

Definition ret {W A} (a : A) : M W A := fun s => (a, s).

Definition bind {W A B} (m : M W A) (k : A -> M W B) : M W B :=
  fun s => let (a, s') := m s in k a s'.

Notation "x <- m ;; k" := (bind m (fun x => k))
  (at level 61, m at next level, right associativity).
Notation "m ;;; k" := (bind m (fun _ => k))
  (at level 61, right associativity).

(** A call of the interface: the world moves and the call is logged. *)
Definition call {W A} (f : W -> A * W) (ev : A -> Event) : M W A :=
  fun s =>
    let (r, w) := f (world s) in
    (r, {| lck := lck s; world := w; trace := trace s ++ [ev r] |}).

Definition get_lck {W} : M W Lock := fun s => (lck s, s).

Definition set_fd {W} (n : Z) : M W unit := fun s =>
  (tt, {| lck := {| path := path (lck s);
                    ReadWriteSeekCloser := ReadWriteSeekCloser (lck s);
                    fd := n |};
          world := world s; trace := trace s |}).

Definition set_ReadWriteSeekCloser {W} (f : option File) : M W unit := fun s =>
  (tt, {| lck := {| path := path (lck s);
                    ReadWriteSeekCloser := f;
                    fd := fd (lck s) |};
          world := world s; trace := trace s |}).

(** What a call of a function with a loop gives for a bound on the
    number of iterations: its result, or no result yet. *)
Inductive Run (A : Type) : Type :=
| Returned (a : A)
| Looping.

Arguments Returned {A}.
Arguments Looping {A}.

(** ** The program *)

Section Program.

Context {W : Type}.
Variable os : OS W.
(** [filepath.Dir], of the Go library. *)
Variable filepath_Dir : string -> string.

Definition Stat (name : string) : M W (FileInfo + error) :=
  call (os_Stat os name) (EvStat name).

Definition MkdirAll (dir : string) (perm : Z) : M W (option error) :=
  call (os_MkdirAll os dir perm) (EvMkdirAll dir perm).

Definition OpenFile (name : string) (flag perm : Z) : M W (File + error) :=
  call (os_OpenFile os name flag perm) (EvOpenFile name flag perm).

Definition Getpid : M W Z := fun s => (os_Getpid os (world s), s).

Definition FcntlFlock (d cmd : Z) (ft : Flock_t) : M W (option error) :=
  call (syscall_FcntlFlock os d cmd ft) (EvFcntlFlock d cmd ft).

Definition Close (f : File) : M W (option error) :=
  call (file_Close os f) (EvClose f).

Definition ctxErr : M W (option error) :=
  call (ctx_Err os) EvCtxErr.

Definition selectDoneAfter (d : Duration) : M W Ready :=
  call (select_Done_After os d) (EvSelect d).

(** [createLockDir]. *)
Definition createLockDir (p : string) : M W (option error) :=
  let dir := filepath_Dir p in
  r <- Stat dir ;;
  match r with
  | inl info =>
      if IsDir info then ret None
      else ret (Some (errorString ("already exists and is not directory: " ++ dir)))
  | inr err =>
      if os_IsNotExist err then MkdirAll dir lockDirPerm
      else ret (Some err)
  end.

(** [Lock.lock].  The embedded interface is not nil where [Close] is
    called (it was found or set just above), so that call never panics:
    the nil case of the match below is not reached, and every run with a
    refused request logs its [Close] ([lock_run], [lock_runs]). *)
Definition lock (blocking : bool) : M W (option error) :=
  l <- get_lck ;;
  opened <-
    match ReadWriteSeekCloser l with
    | None =>
        r <- OpenFile (path l) (Z.lor (Z.lor O_CREATE O_RDWR) O_SYNC) 438 ;;
        match r with
        | inr err => ret (Some err)
        | inl file =>
            set_fd (Fd file) ;;;
            set_ReadWriteSeekCloser (Some file) ;;;
            ret None
        end
    | Some _ => ret None
    end ;;
  match opened with
  | Some err => ret (Some err)
  | None =>
      pid <- Getpid ;;
      let ft := {| Start := 0; Len := 0; Pid := int32 pid;
                   Type_ := F_WRLCK; Whence := SeekStart |} in
      let cmd := if blocking then F_SETLKW else F_SETLK in
      l <- get_lck ;;
      err <- FcntlFlock (fd l) cmd ft ;;
      match err with
      | Some _ =>
          l <- get_lck ;;
          match ReadWriteSeekCloser l with
          | Some f => Close f ;;; ret tt
          | None => ret tt
          end ;;;
          set_ReadWriteSeekCloser None ;;;
          ret err
      | None => ret None
      end
  end.

(** [Lock.TryLock]. *)
Definition TryLock : M W (option error) :=
  l <- get_lck ;;
  err <- createLockDir (path l) ;;
  match err with
  | Some e => ret (Some e)
  | None => lock false
  end.

(** [Lock.UnLock]: the receiver is a copy, which the body only reads. *)
Definition UnLock : M W (option error) :=
  l <- get_lck ;;
  let ft := {| Start := 0; Len := 0; Pid := 0;
               Type_ := F_UNLCK; Whence := SeekStart |} in
  FcntlFlock (fd l) F_SETLK ft.

(** The [for] loop of [try], for at most [n] iterations. *)
Fixpoint try_loop (n : nat) (fn : M W (option error)) (retryDelay : Duration)
  : M W (Run (option error)) :=
  match n with
  | O => ret Looping
  | S n' =>
      err <- fn ;;
      match err with
      | None => ret (Returned None)
      | Some _ =>
          r <- selectDoneAfter retryDelay ;;
          match r with
          | CtxDone => e <- ctxErr ;; ret (Returned e)
          | TimerFired => try_loop n' fn retryDelay
          end
      end
  end.

(** [Lock.try]. *)
Definition try (n : nat) (fn : M W (option error)) (retryDelay : Duration)
  : M W (Run (option error)) :=
  err <- ctxErr ;;
  match err with
  | Some e => ret (Returned (Some e))
  | None => try_loop n fn retryDelay
  end.

(** [Lock.LockContext]. *)
Definition LockContext (n : nat) (retryDelay : Duration)
  : M W (Run (option error)) :=
  l <- get_lck ;;
  err <- createLockDir (path l) ;;
  match err with
  | Some e => ret (Returned (Some e))
  | None => try n TryLock retryDelay
  end.

End Program.

(** ** Reading the call log *)

(** A directory check: [createLockDir] calls [os.Stat] once, and nothing
    else in the package does. *)
Definition is_dir_check (ev : Event) : bool :=
  match ev with
  | EvStat _ _ => true
  | _ => false
  end.

Definition is_mkdir (ev : Event) : bool :=
  match ev with
  | EvMkdirAll _ _ _ => true
  | _ => false
  end.

(** A request for the exclusive lock, blocking or not. *)
Definition is_lock_request (ev : Event) : bool :=
  match ev with
  | EvFcntlFlock _ _ ft _ => Type_ ft =? F_WRLCK
  | _ => false
  end.

(** A lock attempt in the wide sense: the file is opened or the lock is
    requested. *)
Definition is_attempt (ev : Event) : bool :=
  match ev with
  | EvOpenFile _ _ _ _ => true
  | EvFcntlFlock _ _ _ _ => true
  | _ => false
  end.

(** The context is consulted: [ctx.Err()] or the [select] on [ctx.Done()]. *)
Definition is_ctx (ev : Event) : bool :=
  match ev with
  | EvCtxErr _ => true
  | EvSelect _ _ => true
  | _ => false
  end.

Definition count (p : Event -> bool) (tr : list Event) : nat :=
  List.length (filter p tr).

(** The files the log saw opened, and those it saw closed. *)
Definition opened_files (tr : list Event) : list File :=
  flat_map (fun ev => match ev with
                      | EvOpenFile _ _ _ (inl f) => [f]
                      | _ => []
                      end) tr.

Definition closed_files (tr : list Event) : list File :=
  flat_map (fun ev => match ev with
                      | EvClose f _ => [f]
                      | _ => []
                      end) tr.

(** The file a [Lock] holds in its embedded interface, as a list. *)
Definition resource (l : Lock) : list File :=
  match ReadWriteSeekCloser l with
  | Some f => [f]
  | None => []
  end.

(** Every file the log saw opened was closed since, but for the one the
    [Lock] holds. *)
Definition balanced {W} (s : St W) : Prop :=
  opened_files (trace s) = (closed_files (trace s) ++ resource (lck s))%list.

(** The [Flock_t] of [UnLock]. *)
Definition unlock_ft : Flock_t :=
  {| Start := 0; Len := 0; Pid := 0; Type_ := F_UNLCK; Whence := SeekStart |}.

(** The [Flock_t] of [lock] in a process of identity [pid]. *)
Definition wrlck_ft (pid : Z) : Flock_t :=
  {| Start := 0; Len := 0; Pid := int32 pid; Type_ := F_WRLCK; Whence := SeekStart |}.

(** The flags [lock] opens the file with. *)
Definition open_flags : Z := Z.lor (Z.lor O_CREATE O_RDWR) O_SYNC.

(** [k] iterations of the loop of [try] that go round: [fn] fails and the
    [select] takes the timer.  The state after them, if that is how the
    first [k] iterations go. *)
Fixpoint failed_rounds {W} (os : OS W) (k : nat) (fn : M W (option error))
  (retryDelay : Duration) (s : St W) : option (St W) :=
  match k with
  | O => Some s
  | S k' =>
      let (err, s1) := fn s in
      match err with
      | None => None
      | Some _ =>
          let (r, s2) := selectDoneAfter os retryDelay s1 in
          match r with
          | CtxDone => None
          | TimerFired => failed_rounds os k' fn retryDelay s2
          end
      end
  end.

(** ** A kernel model for the concrete runs *)

Module Kernel.

(** The part of the machine the package can see: the directories and
    regular files by path, the paths the process may not open, the
    descriptor table of the process, the files another process holds
    locked and until when, the clock, and the deadline of the context
    ([None] for [context.Background()]). *)
Record World : Type := mkWorld
  { dirs : list string;
    files : list string;
    denied : list string;
    fdtable : list (Z * string);
    locked_elsewhere : list (string * Z);
    now : Z;
    deadline : option Z;
    pid : Z }.

Definition tick (w : World) : World :=
  {| dirs := dirs w; files := files w; denied := denied w;
     fdtable := fdtable w;
     locked_elsewhere := locked_elsewhere w; now := now w + 1;
     deadline := deadline w; pid := pid w |}.

Definition mem (x : string) (l : list string) : bool :=
  existsb (String.eqb x) l.

Definition stat (name : string) (w : World) : (FileInfo + error) * World :=
  let r := if mem name (dirs w) then inl {| IsDir := true |}
           else if mem name (files w) then inl {| IsDir := false |}
           else inr (PathError "stat" name ENOENT) in
  (r, tick w).

Definition mkdirAll (dir : string) (perm : Z) (w : World) : option error * World :=
  (None,
   {| dirs := dir :: dirs w; files := files w; denied := denied w;
     fdtable := fdtable w;
      locked_elsewhere := locked_elsewhere w; now := now w + 1;
      deadline := deadline w; pid := pid w |}).

(** The lowest descriptor number that is not in use. *)
Fixpoint lowest_free (n : nat) (k : Z) (t : list (Z * string)) : Z :=
  match n with
  | O => k
  | S n' => if existsb (fun e => fst e =? k) t
            then lowest_free n' (k + 1) t else k
  end.

Definition openFile (name : string) (flag perm : Z) (w : World)
  : (File + error) * World :=
  if mem name (denied w) then (inr (PathError "open" name EACCES), tick w)
  else
    let d := lowest_free (List.length (fdtable w)) 0 (fdtable w) in
    (inl {| Fd := d; Name := name |},
     {| dirs := dirs w;
        files := if mem name (files w) then files w else name :: files w;
        denied := denied w;
        fdtable := (d, name) :: fdtable w;
        locked_elsewhere := locked_elsewhere w; now := now w + 1;
        deadline := deadline w; pid := pid w |}).

Definition lookup_fd (d : Z) (t : list (Z * string)) : option string :=
  option_map snd (find (fun e => fst e =? d) t).

Definition held_elsewhere (name : string) (w : World) : bool :=
  existsb (fun e => String.eqb (fst e) name && (now w <? snd e))
          (locked_elsewhere w).

(** [fcntl(fd, F_SETLK, ft)]: [EBADF] on a descriptor that is not open;
    unlocking always succeeds on an open one; the exclusive lock is
    refused with [EAGAIN] while another process holds the file. *)
Definition fcntlFlock (d cmd : Z) (ft : Flock_t) (w : World)
  : option error * World :=
  let r := match lookup_fd d (fdtable w) with
           | None => Some (Errno EBADF)
           | Some name =>
               if Type_ ft =? F_UNLCK then None
               else if held_elsewhere name w then Some (Errno EAGAIN)
               else None
           end in
  (r, tick w).

Definition close (f : File) (w : World) : option error * World :=
  (match lookup_fd (Fd f) (fdtable w) with
   | None => Some (PathError "close" (Name f) EBADF)
   | Some _ => None
   end,
   {| dirs := dirs w; files := files w; denied := denied w;
      fdtable := filter (fun e => negb (fst e =? Fd f)) (fdtable w);
      locked_elsewhere := locked_elsewhere w; now := now w + 1;
      deadline := deadline w; pid := pid w |}).

Definition ctx_err (w : World) : option error * World :=
  (match deadline w with
   | Some t => if t <=? now w then Some DeadlineExceeded else None
   | None => None
   end, w).

Definition at_time (t : Z) (w : World) : World :=
  {| dirs := dirs w; files := files w; denied := denied w;
     fdtable := fdtable w;
     locked_elsewhere := locked_elsewhere w; now := t;
     deadline := deadline w; pid := pid w |}.

(** The [select]: the deadline, if it comes before the timer. *)
Definition select_wait (d : Duration) (w : World) : Ready * World :=
  match deadline w with
  | Some t => if t <=? now w + d
              then (CtxDone, at_time (Z.max t (now w)) w)
              else (TimerFired, at_time (now w + d) w)
  | None => (TimerFired, at_time (now w + d) w)
  end.

Definition os : OS World :=
  {| os_Stat := stat;
     os_MkdirAll := mkdirAll;
     os_OpenFile := openFile;
     os_Getpid := pid;
     syscall_FcntlFlock := fcntlFlock;
     file_Close := close;
     ctx_Err := ctx_err;
     select_Done_After := select_wait |}.

(** [filepath.Dir] on a clean path: what comes before the last slash. *)
Fixpoint before_last_slash (p : string) : option string :=
  match p with
  | EmptyString => None
  | String c rest =>
      match before_last_slash rest with
      | Some d => Some (String c d)
      | None => if Ascii.eqb c "/"%char then Some EmptyString else None
      end
  end.

Definition Dir (p : string) : string :=
  match before_last_slash p with
  | None => "."
  | Some EmptyString => "/"
  | Some d => d
  end.

(** A process with the three standard descriptors open, in a machine
    where [/tmp], [/tmp/d] and [/root] are directories, [/tmp/f] is a
    regular file and nothing under [/root] may be opened. *)
Definition boot (locked : list (string * Z)) (dl : option Z) : World :=
  {| dirs := ["/"; "/tmp"; "/tmp/d"; "/root"];
     files := ["/tmp/f"];
     denied := ["/root/foo"];
     fdtable := [(0, "/dev/stdin"); (1, "/dev/stdout"); (2, "/dev/stderr")];
     locked_elsewhere := locked;
     now := 0;
     deadline := dl;
     pid := 4242 |}.

(** The state in which a call on [New p] starts. *)
Definition start (p : string) (w : World) : St World :=
  {| lck := New p; world := w; trace := [] |}.

End Kernel.

(** ** Concrete runs *)

Module Runs.

(** The lock is free and the context has no deadline. *)
Definition free : St Kernel.World := Kernel.start "/tmp/d/lck" (Kernel.boot [] None).

(** Another process holds the lock until time 100; the deadline is 12. *)
Definition contended : St Kernel.World :=
  Kernel.start "/tmp/d/lck" (Kernel.boot [("/tmp/d/lck", 100)] (Some 12)).

(** Another process holds the lock until time 12; the deadline is 100. *)
Definition released : St Kernel.World :=
  Kernel.start "/tmp/d/lck" (Kernel.boot [("/tmp/d/lck", 12)] (Some 100)).

(** The deadline has passed when the call is made. *)
Definition expired : St Kernel.World := Kernel.start "/tmp/d/lck" (Kernel.boot [] (Some 0)).

(** The deadline passes while the first attempt is under way. *)
Definition expiring : St Kernel.World := Kernel.start "/tmp/d/lck" (Kernel.boot [] (Some 3)).

(** The parent of the lock path is a regular file. *)
Definition under_file : St Kernel.World := Kernel.start "/tmp/f/lck" (Kernel.boot [] None).

(** The lock file may not be opened. *)
Definition forbidden : St Kernel.World := Kernel.start "/root/foo" (Kernel.boot [] None).

(** Another process holds the lock for good; the context has no
    deadline. *)
Definition held : St Kernel.World :=
  Kernel.start "/tmp/d/lck" (Kernel.boot [("/tmp/d/lck", 1000)] None).


(** The parent of the lock path does not exist. *)
Definition missing_dir : St Kernel.World :=
  Kernel.start "/tmp/new/lck" (Kernel.boot [] None).

(** The state after the directory check of [LockContext], and after the
    look at the context that opens [try]. *)
Definition checked (s : St Kernel.World) : St Kernel.World :=
  snd (createLockDir Kernel.os Kernel.Dir (path (lck s)) s).

Definition entered (s : St Kernel.World) : St Kernel.World :=
  snd (ctxErr Kernel.os (checked s)).

(** The state after one more round of a retry delay of 5. *)
Definition round (s : St Kernel.World) : St Kernel.World :=
  snd (selectDoneAfter Kernel.os 5 (snd (TryLock Kernel.os Kernel.Dir s))).

End Runs.

(** ** What one call can do *)

(** The runs of [createLockDir] on the directory [dir]: the events it
    logs and what it returns. *)
Inductive dir_run (dir : string) : list Event -> option error -> Prop :=
| dir_is_dir info :
    IsDir info = true ->
    dir_run dir [EvStat dir (inl info)] None
| dir_not_dir info :
    IsDir info = false ->
    dir_run dir [EvStat dir (inl info)]
      (Some (errorString ("already exists and is not directory: " ++ dir)))
| dir_created err r :
    os_IsNotExist err = true ->
    dir_run dir [EvStat dir (inr err); EvMkdirAll dir lockDirPerm r] r
| dir_stat_error err :
    os_IsNotExist err = false ->
    dir_run dir [EvStat dir (inr err)] (Some err).

(** The runs of [lock] on a receiver [l]: the events, the result and the
    receiver afterwards. *)
Inductive lock_run (cmd : Z) (l : Lock)
  : list Event -> option error -> Lock -> Prop :=
| lock_open_failed err :
    ReadWriteSeekCloser l = None ->
    lock_run cmd l [EvOpenFile (path l) open_flags 438 (inr err)] (Some err) l
| lock_opened_locked f pid :
    ReadWriteSeekCloser l = None ->
    lock_run cmd l
      [EvOpenFile (path l) open_flags 438 (inl f);
       EvFcntlFlock (Fd f) cmd (wrlck_ft pid) None]
      None
      {| path := path l; ReadWriteSeekCloser := Some f; fd := Fd f |}
| lock_opened_refused f pid e rc :
    ReadWriteSeekCloser l = None ->
    lock_run cmd l
      [EvOpenFile (path l) open_flags 438 (inl f);
       EvFcntlFlock (Fd f) cmd (wrlck_ft pid) (Some e);
       EvClose f rc]
      (Some e)
      {| path := path l; ReadWriteSeekCloser := None; fd := Fd f |}
| lock_reused_locked f pid :
    ReadWriteSeekCloser l = Some f ->
    lock_run cmd l [EvFcntlFlock (fd l) cmd (wrlck_ft pid) None] None l
| lock_reused_refused f pid e rc :
    ReadWriteSeekCloser l = Some f ->
    lock_run cmd l
      [EvFcntlFlock (fd l) cmd (wrlck_ft pid) (Some e); EvClose f rc]
      (Some e)
      {| path := path l; ReadWriteSeekCloser := None; fd := fd l |}.

(** ** Calls and sessions *)

(** The file-system calls the package makes for a lock on [p]: the
    parent directory [dir] is inspected and created with [lockDirPerm],
    the lock file is opened with the flags and mode of [lock]. *)
Definition fs_call (p dir : string) (ev : Event) : Prop :=
  match ev with
  | EvStat name _ => name = dir
  | EvMkdirAll name perm _ => name = dir /\ perm = lockDirPerm
  | EvOpenFile name flag perm _ => name = p /\ flag = open_flags /\ perm = 438
  | _ => True
  end.

(** A record-lock request that does not wait and spans the whole file. *)
Definition whole_file_setlk (ev : Event) : Prop :=
  match ev with
  | EvFcntlFlock _ cmd ft _ =>
      cmd = F_SETLK /\
      (Type_ ft = F_WRLCK \/ Type_ ft = F_UNLCK) /\
      Start ft = 0 /\ Len ft = 0 /\ Whence ft = SeekStart
  | _ => True
  end.

(** A [select] that waits for [d]. *)
Definition waits_for (d : Duration) (ev : Event) : Prop :=
  match ev with
  | EvSelect d' _ => d' = d
  | _ => True
  end.

(** The [select] took [ctx.Done()]. *)
Definition is_done (ev : Event) : bool :=
  match ev with
  | EvSelect _ CtxDone => true
  | _ => false
  end.

(** The [select] took the timer. *)
Definition is_timer (ev : Event) : bool :=
  match ev with
  | EvSelect _ TimerFired => true
  | _ => false
  end.

(** A request for the exclusive lock that was granted. *)
Definition is_granted (ev : Event) : bool :=
  match ev with
  | EvFcntlFlock _ _ ft None => Type_ ft =? F_WRLCK
  | _ => false
  end.

Definition is_close (ev : Event) : bool :=
  match ev with
  | EvClose _ _ => true
  | _ => false
  end.

(** The error a call reported, for the calls whose error the package
    looks at (that of [Close] is dropped by [lock]). *)
Definition reported (ev : Event) : option error :=
  match ev with
  | EvStat _ (inr e) => Some e
  | EvMkdirAll _ _ r => r
  | EvOpenFile _ _ _ (inr e) => Some e
  | EvFcntlFlock _ _ _ r => r
  | _ => None
  end.

(** The methods of [locker.Locker] a caller has on the value [New] gave. *)
Inductive Call : Type :=
| CallTryLock
| CallUnLock
| CallLockContext (n : nat) (retryDelay : Duration).

Section Sessions.

Context {W : Type}.
Variable os : OS W.
Variable filepath_Dir : string -> string.

(** The state a call leaves ([LockContext] for at most [n] iterations). *)
Definition do_call (c : Call) (s : St W) : St W :=
  match c with
  | CallTryLock => snd (TryLock os filepath_Dir s)
  | CallUnLock => snd (UnLock os s)
  | CallLockContext n retryDelay => snd (LockContext os filepath_Dir n retryDelay s)
  end.

(** A caller's calls, one after the other, on the same [Lock]. *)
Definition session (cs : list Call) (s : St W) : St W :=
  fold_left (fun s c => do_call c s) cs s.

(** The state in which the first call on [New p] starts. *)
Definition fresh (p : string) (w : W) : St W :=
  {| lck := New p; world := w; trace := [] |}.

End Sessions.

Section Facts.

Context {W : Type}.
Variable os : OS W.
Variable filepath_Dir : string -> string.

Lemma count_app (p : Event -> bool) (a b : list Event) :
  count p (a ++ b) = (count p a + count p b)%nat.
Proof.
  unfold count. rewrite filter_app, length_app. reflexivity.
Qed.

Lemma opened_files_app (a b : list Event) :
  opened_files (a ++ b) = (opened_files a ++ opened_files b)%list.
Proof. unfold opened_files. apply flat_map_app. Qed.

Lemma closed_files_app (a b : list Event) :
  closed_files (a ++ b) = (closed_files a ++ closed_files b)%list.
Proof. unfold closed_files. apply flat_map_app. Qed.

Lemma Lock_eta (l : Lock) :
  {| path := path l; ReadWriteSeekCloser := ReadWriteSeekCloser l; fd := fd l |} = l.
Proof. destruct l; reflexivity. Qed.

(** [createLockDir] leaves the receiver alone and runs as [dir_run] says. *)
Lemma createLockDir_run (p : string) (s : St W) (r : option error) (s' : St W) :
  createLockDir os filepath_Dir p s = (r, s') ->
  lck s' = lck s /\
  exists evs, trace s' = (trace s ++ evs)%list /\ dir_run (filepath_Dir p) evs r.
Proof.
  unfold createLockDir, bind, Stat, MkdirAll, call, ret.
  destruct (os_Stat os (filepath_Dir p) (world s)) as [[info | err] w1] eqn:Hstat.
  - destruct (IsDir info) eqn:Hdir; intros H; inversion H; subst; clear H;
      simpl; (split; [reflexivity |]); eexists; (split; [reflexivity |]).
    + now apply dir_is_dir.
    + now apply dir_not_dir.
  - destruct (os_IsNotExist err) eqn:Hne.
    + simpl.
      destruct (os_MkdirAll os (filepath_Dir p) lockDirPerm w1) as [r1 w2].
      intros H; inversion H; subst; clear H; simpl.
      split; [reflexivity |].
      exists [EvStat (filepath_Dir p) (inr err);
              EvMkdirAll (filepath_Dir p) lockDirPerm r].
      split; [now rewrite <- app_assoc | now apply dir_created].
    + intros H; inversion H; subst; clear H; simpl.
      split; [reflexivity |]. eexists; split; [reflexivity |].
      now apply dir_stat_error.
Qed.

(** [lock] runs as [lock_run] says. *)
Lemma lock_runs (blocking : bool) (s : St W) (r : option error) (s' : St W) :
  lock os blocking s = (r, s') ->
  exists evs,
    trace s' = (trace s ++ evs)%list /\
    lock_run (if blocking then F_SETLKW else F_SETLK) (lck s) evs r (lck s').
Proof.
  unfold lock, bind, get_lck, OpenFile, FcntlFlock, Close, Getpid, call, ret,
    set_fd, set_ReadWriteSeekCloser.
  destruct (ReadWriteSeekCloser (lck s)) as [f0 |] eqn:Hres.
  - simpl.
    destruct (syscall_FcntlFlock os (fd (lck s))
                (if blocking then F_SETLKW else F_SETLK)
                {| Start := 0; Len := 0; Pid := int32 (os_Getpid os (world s));
                   Type_ := F_WRLCK; Whence := SeekStart |} (world s))
      as [[e |] w1] eqn:Hfl; simpl.
    + rewrite Hres; simpl.
      destruct (file_Close os f0 w1) as [rc w2]; simpl.
      intros H; inversion H; subst; clear H; simpl.
      eexists; split; [rewrite <- app_assoc; reflexivity |].
      apply (lock_reused_refused _ _ f0 (os_Getpid os (world s))); assumption.
    + intros H; inversion H; subst; clear H; simpl.
      eexists; split; [reflexivity |].
      apply (lock_reused_locked _ _ f0 (os_Getpid os (world s))); assumption.
  - destruct (os_OpenFile os (path (lck s))
                (Z.lor (Z.lor O_CREATE O_RDWR) O_SYNC) 438 (world s))
      as [[f | err] w1] eqn:Hop; simpl.
    + destruct (syscall_FcntlFlock os (Fd f)
                  (if blocking then F_SETLKW else F_SETLK)
                  {| Start := 0; Len := 0; Pid := int32 (os_Getpid os w1);
                     Type_ := F_WRLCK; Whence := SeekStart |} w1)
        as [[e |] w2] eqn:Hfl; simpl.
      * destruct (file_Close os f w2) as [rc w3]; simpl.
        intros H; inversion H; subst; clear H; simpl.
        eexists; split; [rewrite <- !app_assoc; reflexivity |].
        apply (lock_opened_refused _ _ f (os_Getpid os w1)); assumption.
      * intros H; inversion H; subst; clear H; simpl.
        eexists; split; [rewrite <- !app_assoc; reflexivity |].
        apply (lock_opened_locked _ _ f (os_Getpid os w1)); assumption.
    + intros H; inversion H; subst; clear H; simpl.
      eexists; split; [reflexivity |].
      apply lock_open_failed; assumption.
Qed.

(** [TryLock] is the directory check, then [lock(false)] if it passed. *)
Lemma TryLock_unfold (s : St W) :
  TryLock os filepath_Dir s =
  match createLockDir os filepath_Dir (path (lck s)) s with
  | (Some e, s1) => (Some e, s1)
  | (None, s1) => lock os false s1
  end.
Proof.
  unfold TryLock, bind, get_lck, ret.
  destruct (createLockDir os filepath_Dir (path (lck s)) s) as [[e |] s1];
    reflexivity.
Qed.

(** [UnLock] is one request, on the descriptor of the receiver. *)
Lemma UnLock_unfold (s : St W) :
  UnLock os s =
  (fst (syscall_FcntlFlock os (fd (lck s)) F_SETLK unlock_ft (world s)),
   {| lck := lck s;
      world := snd (syscall_FcntlFlock os (fd (lck s)) F_SETLK unlock_ft (world s));
      trace := (trace s ++
                [EvFcntlFlock (fd (lck s)) F_SETLK unlock_ft
                   (fst (syscall_FcntlFlock os (fd (lck s)) F_SETLK unlock_ft
                           (world s)))])%list |}).
Proof.
  unfold UnLock, bind, get_lck, FcntlFlock, call, unlock_ft.
  destruct (syscall_FcntlFlock os (fd (lck s)) F_SETLK _ (world s)) as [r w1].
  reflexivity.
Qed.

(** What the events of a directory check are not. *)
Lemma dir_run_counts (dir : string) (evs : list Event) (r : option error) :
  dir_run dir evs r ->
  (count is_dir_check evs = 1)%nat /\
  (count is_ctx evs = 0)%nat /\
  (count is_attempt evs = 0)%nat /\
  (count is_lock_request evs = 0)%nat /\
  opened_files evs = nil /\
  closed_files evs = nil.
Proof.
  intros H; destruct H; repeat split; reflexivity.
Qed.

Lemma lock_run_counts (cmd : Z) (l : Lock) (evs : list Event)
  (r : option error) (l' : Lock) :
  lock_run cmd l evs r l' ->
  (count is_dir_check evs = 0)%nat /\ (count is_ctx evs = 0)%nat.
Proof.
  intros H; destruct H; split; reflexivity.
Qed.

(** The files a [Lock] had or opened in an attempt are those it closed or
    still has. *)
Lemma lock_run_balance (cmd : Z) (l : Lock) (evs : list Event)
  (r : option error) (l' : Lock) :
  lock_run cmd l evs r l' ->
  (resource l ++ opened_files evs = closed_files evs ++ resource l')%list.
Proof.
  intros H; destruct H; unfold resource; simpl;
    try rewrite H; reflexivity.
Qed.

Ltac in_events :=
  repeat match goal with
         | H : In _ (_ :: _) |- _ => destruct H as [H | H]
         | H : In _ nil |- _ => destruct H
         | H : _ \/ _ |- _ => destruct H as [H | H]
         | H : False |- _ => destruct H
         | H : _ = _ :> Event |- _ =>
             (discriminate H || (inversion H; clear H; subst))
         end.





(** *** No file is lost *)

Lemma balanced_step (s s' : St W) (evs : list Event) :
  trace s' = (trace s ++ evs)%list ->
  (resource (lck s) ++ opened_files evs
   = closed_files evs ++ resource (lck s'))%list ->
  balanced s -> balanced s'.
Proof.
  unfold balanced. intros Ht Hb Hs.
  rewrite Ht, opened_files_app, closed_files_app, Hs, <- !app_assoc.
  now rewrite Hb.
Qed.

Lemma call_balanced {A : Type} (f : W -> A * W) (ev : A -> Event)
  (s s' : St W) (r : A) :
  call f ev s = (r, s') ->
  opened_files [ev r] = nil -> closed_files [ev r] = nil ->
  balanced s -> balanced s'.
Proof.
  unfold call. destruct (f (world s)) as [r0 w1].
  intros H Ho Hc; inversion H; subst; clear H.
  apply balanced_step with (evs := [ev r]); [reflexivity |].
  rewrite Ho, Hc. simpl. now rewrite app_nil_r.
Qed.

Lemma createLockDir_balanced (p : string) (s s' : St W) (r : option error) :
  createLockDir os filepath_Dir p s = (r, s') -> balanced s -> balanced s'.
Proof.
  intros H. destruct (createLockDir_run _ _ _ _ H) as (Hl & evs & Ht & Hrun).
  destruct (dir_run_counts _ _ _ Hrun) as (_ & _ & _ & _ & Ho & Hc).
  apply balanced_step with (evs := evs); [exact Ht |].
  now rewrite Ho, Hc, Hl, app_nil_r.
Qed.

Lemma lock_balanced (blocking : bool) (s s' : St W) (r : option error) :
  lock os blocking s = (r, s') -> balanced s -> balanced s'.
Proof.
  intros H. destruct (lock_runs _ _ _ _ H) as (evs & Ht & Hrun).
  apply balanced_step with (evs := evs); [exact Ht |].
  exact (lock_run_balance _ _ _ _ _ Hrun).
Qed.

Lemma TryLock_balanced (s s' : St W) (r : option error) :
  TryLock os filepath_Dir s = (r, s') -> balanced s -> balanced s'.
Proof.
  rewrite TryLock_unfold.
  destruct (createLockDir os filepath_Dir (path (lck s)) s) as [[e |] s1] eqn:Hc;
    intros H Hs; pose proof (createLockDir_balanced _ _ _ _ Hc Hs) as H1.
  - now inversion H; subst.
  - exact (lock_balanced _ _ _ _ H H1).
Qed.

Lemma UnLock_balanced (s s' : St W) (r : option error) :
  UnLock os s = (r, s') -> balanced s -> balanced s'.
Proof.
  rewrite UnLock_unfold. intros H; inversion H; subst; clear H.
  apply balanced_step
    with (evs := [EvFcntlFlock (fd (lck s)) F_SETLK unlock_ft
                    (fst (syscall_FcntlFlock os (fd (lck s)) F_SETLK unlock_ft
                            (world s)))]);
    [reflexivity |].
  simpl. now rewrite app_nil_r.
Qed.

End Facts.

(** ** The retry loop *)

Section Loop.

Context {W : Type}.
Variable os : OS W.
Variable filepath_Dir : string -> string.

(** Iterations that go round are skipped. *)
Lemma try_loop_rounds (k n : nat) (fn : M W (option error)) (d : Duration)
  (s sk : St W) :
  failed_rounds os k fn d s = Some sk ->
  try_loop os (k + n) fn d s = try_loop os n fn d sk.
Proof.
  revert s. induction k as [| k IH]; intros s H; simpl in *.
  - now inversion H.
  - unfold bind at 1.
    destruct (fn s) as [[e |] s1]; [| discriminate].
    unfold bind at 1.
    destruct (selectDoneAfter os d s1) as [[|] s2]; [discriminate |].
    now apply IH.
Qed.

(** A loop that returns went round some [k] times and then returned from
    iteration [k + 1], on a success of [fn] or on [ctx.Done()]. *)
Lemma try_loop_returned (n : nat) (fn : M W (option error)) (d : Duration)
  (s s' : St W) (r : option error) :
  try_loop os n fn d s = (Returned r, s') ->
  exists k sk,
    (k < n)%nat /\
    failed_rounds os k fn d s = Some sk /\
    ((fn sk = (None, s') /\ r = None) \/
     (exists e s1 s2,
        fn sk = (Some e, s1) /\
        selectDoneAfter os d s1 = (CtxDone, s2) /\
        ctxErr os s2 = (r, s'))).
Proof.
  revert s. induction n as [| n IH]; intros s H; simpl in H.
  - discriminate.
  - unfold bind at 1 in H.
    destruct (fn s) as [[e |] s1] eqn:Hfn.
    + unfold bind at 1 in H.
      destruct (selectDoneAfter os d s1) as [[|] s2] eqn:Hsel.
      * exists 0%nat, s. split; [lia |]. split; [reflexivity |].
        right. exists e, s1, s2. repeat split; try assumption.
        unfold bind, ret in H.
        destruct (ctxErr os s2) as [c s3]. now inversion H.
      * destruct (IH s2 H) as (k & sk & Hk & Hr & Hlast).
        exists (S k), sk. split; [lia |]. split; [| exact Hlast].
        simpl. now rewrite Hfn, Hsel.
    + exists 0%nat, s. split; [lia |]. split; [reflexivity |].
      left. unfold ret in H. inversion H; subst. now split.
Qed.

(** One [TryLock]: one directory check, nothing about the context. *)
Lemma TryLock_counts (s s' : St W) (r : option error) :
  TryLock os filepath_Dir s = (r, s') ->
  exists evs,
    trace s' = (trace s ++ evs)%list /\
    (count is_dir_check evs = 1)%nat /\
    (count is_ctx evs = 0)%nat.
Proof.
  rewrite TryLock_unfold.
  destruct (createLockDir os filepath_Dir (path (lck s)) s) as [[e |] s1] eqn:Hc;
    destruct (createLockDir_run _ _ _ _ _ _ Hc) as (_ & evs & Ht & Hrun);
    destruct (dir_run_counts _ _ _ Hrun) as (Hd & Hx & _).
  - intros H; inversion H; subst. exists evs. auto.
  - intros H. destruct (lock_runs _ _ _ _ _ H) as (evs2 & Ht2 & Hrun2).
    destruct (lock_run_counts _ _ _ _ _ Hrun2) as (Hd2 & Hx2).
    exists (evs ++ evs2)%list.
    rewrite Ht2, Ht, <- app_assoc, !count_app, Hd, Hx, Hd2, Hx2. auto.
Qed.

(** [k] rounds of [TryLock]: [k] directory checks, [k] looks at the
    context (the [select] of each round). *)
Lemma failed_rounds_counts (k : nat) (d : Duration) (s sk : St W) :
  failed_rounds os k (TryLock os filepath_Dir) d s = Some sk ->
  exists evs,
    trace sk = (trace s ++ evs)%list /\
    count is_dir_check evs = k /\
    count is_ctx evs = k.
Proof.
  revert s. induction k as [| k IH]; intros s H; simpl in H.
  - inversion H; subst. exists nil. rewrite app_nil_r. auto.
  - destruct (TryLock os filepath_Dir s) as [[e |] s1] eqn:Hfn; [| discriminate].
    destruct (TryLock_counts _ _ _ Hfn) as (evs1 & Ht1 & Hd1 & Hx1).
    unfold selectDoneAfter, call in H.
    destruct (select_Done_After os d (world s1)) as [[|] w2]; [discriminate |].
    destruct (IH _ H) as (evs2 & Ht2 & Hd2 & Hx2). simpl in Ht2.
    exists (evs1 ++ [EvSelect d TimerFired] ++ evs2)%list.
    rewrite Ht2, Ht1, <- !app_assoc, !count_app, Hd1, Hx1, Hd2, Hx2.
    split; [reflexivity |]. simpl. split; lia.
Qed.

(** The loop of [LockContext] loses no file, however long it goes on. *)
Lemma try_loop_balanced (n : nat) (d : Duration) (s s' : St W)
  (r : Run (option error)) :
  try_loop os n (TryLock os filepath_Dir) d s = (r, s') ->
  balanced s -> balanced s'.
Proof.
  revert s. induction n as [| n IH]; intros s H Hs; simpl in H.
  - now inversion H; subst.
  - unfold bind at 1 in H.
    destruct (TryLock os filepath_Dir s) as [[e |] s1] eqn:Hfn;
      pose proof (TryLock_balanced _ _ _ _ _ Hfn Hs) as H1.
    + unfold bind at 1 in H.
      destruct (selectDoneAfter os d s1) as [[|] s2] eqn:Hsel;
        pose proof (call_balanced _ _ _ _ _ Hsel eq_refl eq_refl H1) as H2.
      * unfold bind, ret in H.
        destruct (ctxErr os s2) as [c s3] eqn:Hctx.
        inversion H; subst; clear H.
        exact (call_balanced _ _ _ _ _ Hctx eq_refl eq_refl H2).
      * exact (IH _ H H2).
    + now inversion H; subst.
Qed.

End Loop.

(** ** Properties of one attempt and of the release *)

Section Attempt.

Context {W : Type}.
Variable os : OS W.
Variable filepath_Dir : string -> string.

(** C9. When the embedded resource is nil and [os.OpenFile] fails,
    [lock] returns the error of [os.OpenFile]; the [Lock] is as before
    (the resource still nil, [fd] with its former value), and the only
    call made is that [os.OpenFile]: no lock request, no [Close]. *)
Theorem lock_open_error_leaves_lock_unchanged
  (blocking : bool) (s : St W) (err : error) (w1 : W) :
  ReadWriteSeekCloser (lck s) = None ->
  os_OpenFile os (path (lck s)) open_flags 438 (world s) = (inr err, w1) ->
  fst (lock os blocking s) = Some err /\
  lck (snd (lock os blocking s)) = lck s /\
  ReadWriteSeekCloser (lck (snd (lock os blocking s))) = None /\
  fd (lck (snd (lock os blocking s))) = fd (lck s) /\
  world (snd (lock os blocking s)) = w1 /\
  trace (snd (lock os blocking s)) =
    (trace s ++ [EvOpenFile (path (lck s)) open_flags 438 (inr err)])%list.
Proof.
  intros Hres Hop.
  unfold lock, bind, get_lck, OpenFile, call, ret.
  rewrite Hres. fold open_flags. rewrite Hop. simpl.
  repeat split; auto.
Qed.


(** C8. When an attempt opens the file as [f] and its lock request
    fails, the attempt closes [f] and clears the resource field but
    leaves [fd] at the descriptor number of [f]; the [UnLock] that
    follows sends its unlock request to that number. *)
Theorem failed_request_leaves_stale_fd
  (blocking : bool) (s : St W) (f : File) (w1 w2 w3 : W)
  (e : error) (rc : option error) :
  ReadWriteSeekCloser (lck s) = None ->
  os_OpenFile os (path (lck s)) open_flags 438 (world s) = (inl f, w1) ->
  syscall_FcntlFlock os (Fd f) (if blocking then F_SETLKW else F_SETLK)
    (wrlck_ft (os_Getpid os w1)) w1 = (Some e, w2) ->
  file_Close os f w2 = (rc, w3) ->
  let s' := snd (lock os blocking s) in
  let s'' := snd (UnLock os s') in
  fst (lock os blocking s) = Some e /\
  ReadWriteSeekCloser (lck s') = None /\
  fd (lck s') = Fd f /\
  closed_files (trace s') = (closed_files (trace s) ++ [f])%list /\
  trace s'' =
    (trace s' ++ [EvFcntlFlock (Fd f) F_SETLK unlock_ft (fst (UnLock os s'))])%list.
Proof.
  intros Hres Hop Hfl Hcl s' s''.
  assert (Hlock : lock os blocking s =
                  (Some e,
                   {| lck := {| path := path (lck s);
                                ReadWriteSeekCloser := None; fd := Fd f |};
                      world := w3;
                      trace := (trace s ++
                                [EvOpenFile (path (lck s)) open_flags 438 (inl f);
                                 EvFcntlFlock (Fd f)
                                   (if blocking then F_SETLKW else F_SETLK)
                                   (wrlck_ft (os_Getpid os w1)) (Some e);
                                 EvClose f rc])%list |})).
  { unfold lock, bind, get_lck, OpenFile, FcntlFlock, Close, Getpid, call, ret,
      set_fd, set_ReadWriteSeekCloser.
    rewrite Hres. fold open_flags. rewrite Hop. simpl.
    fold (wrlck_ft (os_Getpid os w1)). rewrite Hfl. simpl.
    rewrite Hcl. simpl. now rewrite <- !app_assoc. }
  subst s'' s'. rewrite Hlock. simpl.
  rewrite UnLock_unfold. simpl.
  repeat split; try reflexivity.
  rewrite closed_files_app. reflexivity.
Qed.

(** C7. [UnLock] makes one call, the unlock request; it calls no
    [Close], and the [Lock] after it, its resource field included, is the
    [Lock] before it. *)
Theorem UnLock_keeps_resource (s : St W) :
  lck (snd (UnLock os s)) = lck s /\
  ReadWriteSeekCloser (lck (snd (UnLock os s))) = ReadWriteSeekCloser (lck s) /\
  closed_files (trace (snd (UnLock os s))) = closed_files (trace s) /\
  trace (snd (UnLock os s)) =
    (trace s ++ [EvFcntlFlock (fd (lck s)) F_SETLK unlock_ft
                   (fst (UnLock os s))])%list.
Proof.
  rewrite UnLock_unfold. simpl. repeat split.
  rewrite closed_files_app. simpl. now rewrite app_nil_r.
Qed.


End Attempt.

(** ** Properties of the acquisition entry points *)

Section Retry.

Context {W : Type}.
Variable os : OS W.
Variable filepath_Dir : string -> string.

(** [LockContext] after its directory check. *)
Lemma LockContext_unfold (n : nat) (d : Duration) (s : St W) :
  LockContext os filepath_Dir n d s =
  match createLockDir os filepath_Dir (path (lck s)) s with
  | (Some e, s1) => (Returned (Some e), s1)
  | (None, s1) =>
      match ctxErr os s1 with
      | (Some e, s2) => (Returned (Some e), s2)
      | (None, s2) => try_loop os n (TryLock os filepath_Dir) d s2
      end
  end.
Proof.
  unfold LockContext, try, bind, get_lck, ret.
  destruct (createLockDir os filepath_Dir (path (lck s)) s) as [[e |] s1];
    [reflexivity |].
  destruct (ctxErr os s1) as [[e |] s2]; reflexivity.
Qed.

(** Whatever [LockContext] has done so far, no file is lost. *)
Lemma LockContext_balanced (n : nat) (d : Duration) (s s' : St W)
  (r : Run (option error)) :
  LockContext os filepath_Dir n d s = (r, s') -> balanced s -> balanced s'.
Proof.
  rewrite LockContext_unfold.
  destruct (createLockDir os filepath_Dir (path (lck s)) s) as [[e |] s1] eqn:Hc;
    intros H Hs; pose proof (createLockDir_balanced _ _ _ _ _ _ Hc Hs) as H1.
  - now inversion H; subst.
  - destruct (ctxErr os s1) as [[e |] s2] eqn:Hctx;
      pose proof (call_balanced _ _ _ _ _ Hctx eq_refl eq_refl H1) as H2.
    + now inversion H; subst.
    + exact (try_loop_balanced _ _ _ _ _ _ _ H H2).
Qed.

(** A [TryLock] that succeeds ends on the lock request that was granted. *)
Lemma TryLock_success_last (s s' : St W) :
  TryLock os filepath_Dir s = (None, s') ->
  exists pre d cmd ft, trace s' = (pre ++ [EvFcntlFlock d cmd ft None])%list.
Proof.
  rewrite TryLock_unfold.
  destruct (createLockDir os filepath_Dir (path (lck s)) s) as [[e |] s1];
    [discriminate |].
  intros H. destruct (lock_runs _ _ _ _ _ H) as (evs & Ht & Hrun).
  remember None as r eqn:Hr. remember (lck s') as l' eqn:Hl'.
  destruct Hrun as [err Hres | f pid Hres | f pid e0 rc Hres
                   | f pid Hres | f pid e0 rc Hres]; try discriminate.
  - exists (trace s1 ++ [EvOpenFile (path (lck s1)) open_flags 438 (inl f)])%list.
    do 3 eexists. rewrite Ht, <- app_assoc. reflexivity.
  - exists (trace s1). do 3 eexists. exact Ht.
Qed.

(** C5. When the parent of the lock path exists and is not a directory
    ([os.Stat] answers with an [IsDir() = false] info), the directory
    check returns the error whose text is
    [already exists and is not directory: ] followed by that parent
    path, and so do [TryLock] and [LockContext], at once: the [os.Stat]
    is the only call they make (no [os.MkdirAll], no attempt, no wait). *)
Theorem not_a_directory_fails_fast
  (n : nat) (d : Duration) (s : St W) (info : FileInfo) (w1 : W) :
  os_Stat os (filepath_Dir (path (lck s))) (world s) = (inl info, w1) ->
  IsDir info = false ->
  let dir := filepath_Dir (path (lck s)) in
  let e := errorString ("already exists and is not directory: " ++ dir) in
  let s' := {| lck := lck s; world := w1;
               trace := (trace s ++ [EvStat dir (inl info)])%list |} in
  createLockDir os filepath_Dir (path (lck s)) s = (Some e, s') /\
  TryLock os filepath_Dir s = (Some e, s') /\
  LockContext os filepath_Dir n d s = (Returned (Some e), s') /\
  Error e = Some ("already exists and is not directory: " ++ dir)%string /\
  count is_mkdir (trace s') = count is_mkdir (trace s) /\
  count is_attempt (trace s') = count is_attempt (trace s) /\
  count is_ctx (trace s') = count is_ctx (trace s).
Proof.
  intros Hstat Hdir dir e s'.
  assert (Hc : createLockDir os filepath_Dir (path (lck s)) s = (Some e, s')).
  { unfold createLockDir, bind, Stat, call, ret. rewrite Hstat, Hdir.
    reflexivity. }
  split; [exact Hc |].
  split; [now rewrite TryLock_unfold, Hc |].
  split; [now rewrite LockContext_unfold, Hc |].
  split; [reflexivity |].
  subst s'; simpl. rewrite !count_app. unfold count; simpl.
  repeat split; lia.
Qed.

(** C1. What [LockContext] does when the context is already done on
    entry: after the directory check, [try] reads [ctx.Err()], finds it
    set and returns it; the file is not opened and no lock is requested. *)
Theorem LockContext_done_on_entry_makes_no_attempt
  (n : nat) (d : Duration) (s s1 : St W) (e : error) (w2 : W) :
  createLockDir os filepath_Dir (path (lck s)) s = (None, s1) ->
  ctx_Err os (world s1) = (Some e, w2) ->
  LockContext os filepath_Dir n d s =
    (Returned (Some e),
     {| lck := lck s; world := w2;
        trace := (trace s1 ++ [EvCtxErr (Some e)])%list |}) /\
  count is_attempt (trace s1 ++ [EvCtxErr (Some e)]) = count is_attempt (trace s) /\
  count is_lock_request (trace s1 ++ [EvCtxErr (Some e)])
  = count is_lock_request (trace s).
Proof.
  intros Hc Hctx.
  destruct (createLockDir_run _ _ _ _ _ _ Hc) as (Hl & evs & Ht & Hrun).
  destruct (dir_run_counts _ _ _ Hrun) as (_ & _ & Ha & Hq & _).
  split.
  - rewrite LockContext_unfold, Hc. unfold ctxErr, call.
    rewrite Hctx, Hl. reflexivity.
  - rewrite Ht, !count_app, Ha, Hq. unfold count; simpl. split; lia.
Qed.

(** C6. When, after [k] rounds, an attempt fails with [e] and the
    [select] that follows takes [ctx.Done()], [LockContext] returns what
    [ctx.Err()] then answers, whatever [e] is. *)
Theorem cancellation_returns_context_error
  (k m : nat) (d : Duration) (s s1 s2 sk sa : St W)
  (e : error) (wb wc : W) (c : option error) :
  createLockDir os filepath_Dir (path (lck s)) s = (None, s1) ->
  ctxErr os s1 = (None, s2) ->
  failed_rounds os k (TryLock os filepath_Dir) d s2 = Some sk ->
  TryLock os filepath_Dir sk = (Some e, sa) ->
  select_Done_After os d (world sa) = (CtxDone, wb) ->
  ctx_Err os wb = (c, wc) ->
  LockContext os filepath_Dir (k + S m) d s =
    (Returned c,
     {| lck := lck sa; world := wc;
        trace := (trace sa ++ [EvSelect d CtxDone; EvCtxErr c])%list |}).
Proof.
  intros Hc Hctx Hr Hfn Hsel Herr.
  rewrite LockContext_unfold, Hc, Hctx, (try_loop_rounds _ _ _ _ _ _ _ Hr).
  simpl. unfold bind at 1. rewrite Hfn.
  unfold bind, selectDoneAfter, ctxErr, call, ret. rewrite Hsel. simpl.
  rewrite Herr, <- app_assoc. reflexivity.
Qed.

(** C10. When the context is not done on entry and, after [k] rounds, an
    attempt succeeds, [LockContext] returns nil in the state that attempt
    left: the last call logged is the lock request that was granted, and
    the context was looked at [k + 1] times in all, once on entry and
    once after each of the [k] failed attempts.  Nothing is assumed of
    what [ctx.Err()] would answer by then. *)
Theorem success_returns_without_context_check
  (k m : nat) (d : Duration) (s s1 s2 sk s' : St W) :
  createLockDir os filepath_Dir (path (lck s)) s = (None, s1) ->
  ctxErr os s1 = (None, s2) ->
  failed_rounds os k (TryLock os filepath_Dir) d s2 = Some sk ->
  TryLock os filepath_Dir sk = (None, s') ->
  LockContext os filepath_Dir (k + S m) d s = (Returned None, s') /\
  (exists pre fd0 cmd ft, trace s' = (pre ++ [EvFcntlFlock fd0 cmd ft None])%list) /\
  exists evs, trace s' = (trace s ++ evs)%list /\ count is_ctx evs = S k.
Proof.
  intros Hc Hctx Hr Hfn.
  split; [| split].
  - rewrite LockContext_unfold, Hc, Hctx, (try_loop_rounds _ _ _ _ _ _ _ Hr).
    simpl. unfold bind at 1. rewrite Hfn. reflexivity.
  - exact (TryLock_success_last _ _ Hfn).
  - destruct (createLockDir_run _ _ _ _ _ _ Hc) as (_ & evs0 & Ht0 & Hrun).
    destruct (dir_run_counts _ _ _ Hrun) as (_ & Hx0 & _).
    unfold ctxErr, call in Hctx.
    destruct (ctx_Err os (world s1)) as [c w2]. inversion Hctx; subst; clear Hctx.
    destruct (failed_rounds_counts _ _ _ _ _ _ Hr) as (evs1 & Ht1 & _ & Hx1).
    destruct (TryLock_counts _ _ _ _ _ Hfn) as (evs2 & Ht2 & _ & Hx2).
    simpl in Ht1.
    exists (evs0 ++ [EvCtxErr None] ++ evs1 ++ evs2)%list.
    rewrite Ht2, Ht1, Ht0, <- !app_assoc, !count_app, Hx0, Hx1, Hx2.
    split; [reflexivity |]. unfold count; simpl. lia.
Qed.

(** C2. The directory check in [LockContext]: it is run once before the
    loop, and when it fails that error is returned and nothing else is
    done; when it passes (and the context is not done), each iteration
    of the loop calls [TryLock], which runs the check again: once [k]
    rounds and one more iteration are through, the check has been run
    [k + 2] times, one more than there were iterations. *)
Theorem LockContext_dir_check_each_iteration
  (d : Duration) (s s1 : St W) (r0 : option error) :
  createLockDir os filepath_Dir (path (lck s)) s = (r0, s1) ->
  count is_dir_check (trace s1) = S (count is_dir_check (trace s)) /\
  match r0 with
  | Some e =>
      forall n, LockContext os filepath_Dir n d s = (Returned (Some e), s1)
  | None =>
      forall k s2 sk,
        ctxErr os s1 = (None, s2) ->
        failed_rounds os k (TryLock os filepath_Dir) d s2 = Some sk ->
        count is_dir_check (trace (snd (LockContext os filepath_Dir (S k) d s)))
        = (count is_dir_check (trace s) + 1 + S k)%nat
  end.
Proof.
  intros Hc.
  destruct (createLockDir_run _ _ _ _ _ _ Hc) as (_ & evs0 & Ht0 & Hrun).
  destruct (dir_run_counts _ _ _ Hrun) as (Hd0 & _).
  split; [rewrite Ht0, count_app, Hd0; lia |].
  destruct r0 as [e |].
  - intros n. now rewrite LockContext_unfold, Hc.
  - intros k s2 sk Hctx Hr.
    rewrite LockContext_unfold, Hc, Hctx.
    replace (S k) with (k + 1)%nat by lia.
    rewrite (try_loop_rounds _ _ _ _ _ _ _ Hr).
    unfold ctxErr, call in Hctx.
    destruct (ctx_Err os (world s1)) as [c w2]. inversion Hctx; subst; clear Hctx.
    destruct (failed_rounds_counts _ _ _ _ _ _ Hr) as (evs1 & Ht1 & Hd1 & _).
    simpl in Ht1.
    simpl. unfold bind at 1.
    destruct (TryLock os filepath_Dir sk) as [[e |] sa] eqn:Hfn;
      destruct (TryLock_counts _ _ _ _ _ Hfn) as (evs2 & Ht2 & Hd2 & _).
    + unfold bind, selectDoneAfter, ctxErr, call, ret.
      destruct (select_Done_After os d (world sa)) as [[|] wb]; simpl.
      * destruct (ctx_Err os wb) as [c wc]; simpl.
        rewrite Ht2, Ht1, Ht0, !count_app, Hd0, Hd1, Hd2. unfold count; simpl. lia.
      * rewrite Ht2, Ht1, Ht0, !count_app, Hd0, Hd1, Hd2. unfold count; simpl. lia.
    + unfold ret; simpl.
      rewrite Ht2, Ht1, Ht0, !count_app, Hd0, Hd1, Hd2. unfold count; simpl. lia.
Qed.

End Retry.

(** ** The properties on the concrete runs *)

(** The lock file may not be opened: [lock] returns the error of
    [os.OpenFile] and the [Lock] is still the one [New] made. *)
Lemma lock_open_error_run :
  ReadWriteSeekCloser (lck Runs.forbidden) = None /\
  os_OpenFile Kernel.os (path (lck Runs.forbidden)) open_flags 438
    (world Runs.forbidden)
  = (inr (PathError "open" "/root/foo" EACCES),
     Kernel.tick (world Runs.forbidden)) /\
  fst (lock Kernel.os false Runs.forbidden)
  = Some (PathError "open" "/root/foo" EACCES) /\
  lck (snd (lock Kernel.os false Runs.forbidden)) = New "/root/foo".
Proof.
  assert (H1 : ReadWriteSeekCloser (lck Runs.forbidden) = None) by (vm_compute; reflexivity).
  assert (H2 : os_OpenFile Kernel.os (path (lck Runs.forbidden)) open_flags 438
                 (world Runs.forbidden)
               = (inr (PathError "open" "/root/foo" EACCES),
                  Kernel.tick (world Runs.forbidden))) by (vm_compute; reflexivity).
  destruct (lock_open_error_leaves_lock_unchanged Kernel.os false
              Runs.forbidden _ _ H1 H2) as (Hr & Hl & _).
  repeat split; assumption.
Defined.


(** The same run, followed by [UnLock]: the unlock request goes to
    descriptor 3, which the attempt has closed, and is answered [EBADF]. *)
Lemma stale_fd_run :
  ReadWriteSeekCloser (lck Runs.contended) = None /\
  os_OpenFile Kernel.os (path (lck Runs.contended)) open_flags 438
    (world Runs.contended)
  = (inl {| Fd := 3; Name := "/tmp/d/lck" |},
     snd (Kernel.openFile "/tmp/d/lck" open_flags 438 (world Runs.contended))) /\
  fd (lck (snd (lock Kernel.os false Runs.contended))) = 3 /\
  closed_files (trace (snd (lock Kernel.os false Runs.contended)))
  = [{| Fd := 3; Name := "/tmp/d/lck" |}] /\
  trace (snd (UnLock Kernel.os (snd (lock Kernel.os false Runs.contended))))
  = (trace (snd (lock Kernel.os false Runs.contended))
     ++ [EvFcntlFlock 3 F_SETLK unlock_ft (Some (Errno EBADF))])%list.
Proof.
  pose (f := {| Fd := 3; Name := "/tmp/d/lck" |}).
  pose (w1 := snd (Kernel.openFile "/tmp/d/lck" open_flags 438
                     (world Runs.contended))).
  pose (w2 := Kernel.tick w1).
  assert (H1 : ReadWriteSeekCloser (lck Runs.contended) = None) by (vm_compute; reflexivity).
  assert (H2 : os_OpenFile Kernel.os (path (lck Runs.contended)) open_flags 438
                 (world Runs.contended) = (inl f, w1)) by (vm_compute; reflexivity).
  assert (H3 : syscall_FcntlFlock Kernel.os (Fd f) F_SETLK
                 (wrlck_ft (os_Getpid Kernel.os w1)) w1
               = (Some (Errno EAGAIN), w2)) by (vm_compute; reflexivity).
  assert (H4 : file_Close Kernel.os f w2 = (None, snd (Kernel.close f w2)))
    by (vm_compute; reflexivity).
  destruct (failed_request_leaves_stale_fd Kernel.os false Runs.contended
              f w1 w2 _ _ _ H1 H2 H3 H4) as (_ & _ & Hfd & Hcl & Htr).
  split; [exact H1 |]. split; [exact H2 |]. split; [exact Hfd |].
  split; [exact Hcl |]. exact Htr.
Defined.



(** The parent [/tmp/f] of the lock path is a regular file: both entry
    points return the error that names it, after the one [os.Stat]. *)
Lemma not_a_directory_run :
  os_Stat Kernel.os (Kernel.Dir (path (lck Runs.under_file)))
    (world Runs.under_file)
  = (inl {| IsDir := false |}, Kernel.tick (world Runs.under_file)) /\
  IsDir {| IsDir := false |} = false /\
  fst (TryLock Kernel.os Kernel.Dir Runs.under_file)
  = Some (errorString "already exists and is not directory: /tmp/f") /\
  fst (LockContext Kernel.os Kernel.Dir 7 5 Runs.under_file)
  = Returned (Some (errorString "already exists and is not directory: /tmp/f")) /\
  trace (snd (LockContext Kernel.os Kernel.Dir 7 5 Runs.under_file))
  = [EvStat "/tmp/f" (inl {| IsDir := false |})].
Proof.
  assert (H1 : os_Stat Kernel.os (Kernel.Dir (path (lck Runs.under_file)))
                 (world Runs.under_file)
               = (inl {| IsDir := false |}, Kernel.tick (world Runs.under_file)))
    by (vm_compute; reflexivity).
  assert (H2 : IsDir {| IsDir := false |} = false) by (vm_compute; reflexivity).
  destruct (not_a_directory_fails_fast Kernel.os Kernel.Dir 7 5
              Runs.under_file _ _ H1 H2) as (_ & Ht & Hl & _).
  split; [exact H1 |]. split; [exact H2 |].
  rewrite Ht, Hl. repeat split; vm_compute; reflexivity.
Defined.

(** The deadline has passed on entry: [LockContext] returns
    [DeadlineExceeded] and the log has the [os.Stat] of the directory
    check and the [ctx.Err()], no attempt. *)
Lemma LockContext_done_on_entry_run :
  createLockDir Kernel.os Kernel.Dir (path (lck Runs.expired)) Runs.expired
  = (None, Runs.checked Runs.expired) /\
  ctx_Err Kernel.os (world (Runs.checked Runs.expired))
  = (Some DeadlineExceeded, world (Runs.checked Runs.expired)) /\
  fst (LockContext Kernel.os Kernel.Dir 7 5 Runs.expired)
  = Returned (Some DeadlineExceeded) /\
  trace (snd (LockContext Kernel.os Kernel.Dir 7 5 Runs.expired))
  = [EvStat "/tmp/d" (inl {| IsDir := true |}); EvCtxErr (Some DeadlineExceeded)].
Proof.
  assert (H1 : createLockDir Kernel.os Kernel.Dir (path (lck Runs.expired))
                 Runs.expired = (None, Runs.checked Runs.expired))
    by (vm_compute; reflexivity).
  assert (H2 : ctx_Err Kernel.os (world (Runs.checked Runs.expired))
               = (Some DeadlineExceeded, world (Runs.checked Runs.expired)))
    by (vm_compute; reflexivity).
  destruct (LockContext_done_on_entry_makes_no_attempt Kernel.os Kernel.Dir
              7 5 _ _ _ _ H1 H2) as (Hr & _).
  split; [exact H1 |]. split; [exact H2 |].
  rewrite Hr. split; vm_compute; reflexivity.
Defined.

(** The lock stays held elsewhere and the deadline comes in the second
    wait: [LockContext] returns [DeadlineExceeded], not the [EAGAIN] of
    its last attempt. *)
Lemma cancellation_run :
  createLockDir Kernel.os Kernel.Dir (path (lck Runs.contended)) Runs.contended
  = (None, Runs.checked Runs.contended) /\
  ctxErr Kernel.os (Runs.checked Runs.contended)
  = (None, Runs.entered Runs.contended) /\
  failed_rounds Kernel.os 1 (TryLock Kernel.os Kernel.Dir) 5
    (Runs.entered Runs.contended)
  = Some (Runs.round (Runs.entered Runs.contended)) /\
  fst (TryLock Kernel.os Kernel.Dir (Runs.round (Runs.entered Runs.contended)))
  = Some (Errno EAGAIN) /\
  fst (LockContext Kernel.os Kernel.Dir 7 5 Runs.contended)
  = Returned (Some DeadlineExceeded).
Proof.
  pose (sk := Runs.round (Runs.entered Runs.contended)).
  pose (sa := snd (TryLock Kernel.os Kernel.Dir sk)).
  pose (wb := snd (select_Done_After Kernel.os 5 (world sa))).
  assert (H1 : createLockDir Kernel.os Kernel.Dir (path (lck Runs.contended))
                 Runs.contended = (None, Runs.checked Runs.contended))
    by (vm_compute; reflexivity).
  assert (H2 : ctxErr Kernel.os (Runs.checked Runs.contended)
               = (None, Runs.entered Runs.contended)) by (vm_compute; reflexivity).
  assert (H3 : failed_rounds Kernel.os 1 (TryLock Kernel.os Kernel.Dir) 5
                 (Runs.entered Runs.contended) = Some sk) by (vm_compute; reflexivity).
  assert (H4 : TryLock Kernel.os Kernel.Dir sk = (Some (Errno EAGAIN), sa))
    by (vm_compute; reflexivity).
  assert (H5 : select_Done_After Kernel.os 5 (world sa) = (CtxDone, wb))
    by (vm_compute; reflexivity).
  assert (H6 : ctx_Err Kernel.os wb = (Some DeadlineExceeded, wb))
    by (vm_compute; reflexivity).
  pose proof (cancellation_returns_context_error Kernel.os Kernel.Dir 1 5 5
                _ _ _ _ _ _ _ _ _ H1 H2 H3 H4 H5 H6) as H.
  split; [exact H1 |]. split; [exact H2 |]. split; [exact H3 |].
  split; [vm_compute; reflexivity |].
  change (1 + 6)%nat with 7%nat in H. rewrite H. vm_compute; reflexivity.
Defined.

(** The deadline passes during the first attempt, which succeeds:
    [LockContext] returns nil although [ctx.Err()] would by then answer
    [DeadlineExceeded]; the context was read once, on entry. *)
Lemma success_after_deadline_run :
  createLockDir Kernel.os Kernel.Dir (path (lck Runs.expiring)) Runs.expiring
  = (None, Runs.checked Runs.expiring) /\
  ctxErr Kernel.os (Runs.checked Runs.expiring)
  = (None, Runs.entered Runs.expiring) /\
  fst (TryLock Kernel.os Kernel.Dir (Runs.entered Runs.expiring)) = None /\
  fst (LockContext Kernel.os Kernel.Dir 7 5 Runs.expiring) = Returned None /\
  fst (ctx_Err Kernel.os
         (world (snd (LockContext Kernel.os Kernel.Dir 7 5 Runs.expiring))))
  = Some DeadlineExceeded /\
  count is_ctx (trace (snd (LockContext Kernel.os Kernel.Dir 7 5 Runs.expiring)))
  = 1%nat.
Proof.
  pose (s' := snd (TryLock Kernel.os Kernel.Dir (Runs.entered Runs.expiring))).
  assert (H1 : createLockDir Kernel.os Kernel.Dir (path (lck Runs.expiring))
                 Runs.expiring = (None, Runs.checked Runs.expiring))
    by (vm_compute; reflexivity).
  assert (H2 : ctxErr Kernel.os (Runs.checked Runs.expiring)
               = (None, Runs.entered Runs.expiring)) by (vm_compute; reflexivity).
  assert (H3 : failed_rounds Kernel.os 0 (TryLock Kernel.os Kernel.Dir) 5
                 (Runs.entered Runs.expiring)
               = Some (Runs.entered Runs.expiring)) by (vm_compute; reflexivity).
  assert (H4 : TryLock Kernel.os Kernel.Dir (Runs.entered Runs.expiring)
               = (None, s')) by (vm_compute; reflexivity).
  destruct (success_returns_without_context_check Kernel.os Kernel.Dir 0 6 5
              _ _ _ _ _ H1 H2 H3 H4) as (H & _).
  split; [exact H1 |]. split; [exact H2 |]. split; [vm_compute; reflexivity |].
  change (0 + 7)%nat with 7%nat in H. rewrite H.
  repeat split; vm_compute; reflexivity.
Defined.

(** The lock is released during the first wait: the call makes two
    iterations and runs the directory check three times. *)
Lemma dir_check_each_iteration_run :
  createLockDir Kernel.os Kernel.Dir (path (lck Runs.released)) Runs.released
  = (None, Runs.checked Runs.released) /\
  ctxErr Kernel.os (Runs.checked Runs.released)
  = (None, Runs.entered Runs.released) /\
  failed_rounds Kernel.os 1 (TryLock Kernel.os Kernel.Dir) 5
    (Runs.entered Runs.released)
  = Some (Runs.round (Runs.entered Runs.released)) /\
  fst (LockContext Kernel.os Kernel.Dir 2 5 Runs.released) = Returned None /\
  count is_dir_check (trace (snd (LockContext Kernel.os Kernel.Dir 2 5 Runs.released)))
  = 3%nat.
Proof.
  assert (H1 : createLockDir Kernel.os Kernel.Dir (path (lck Runs.released))
                 Runs.released = (None, Runs.checked Runs.released))
    by (vm_compute; reflexivity).
  assert (H2 : ctxErr Kernel.os (Runs.checked Runs.released)
               = (None, Runs.entered Runs.released)) by (vm_compute; reflexivity).
  assert (H3 : failed_rounds Kernel.os 1 (TryLock Kernel.os Kernel.Dir) 5
                 (Runs.entered Runs.released)
               = Some (Runs.round (Runs.entered Runs.released)))
    by (vm_compute; reflexivity).
  destruct (LockContext_dir_check_each_iteration Kernel.os Kernel.Dir 5
              _ _ _ H1) as (_ & H).
  split; [exact H1 |]. split; [exact H2 |]. split; [exact H3 |].
  split; [vm_compute; reflexivity |].
  exact (H 1%nat _ _ H2 H3).
Defined.

(** The lock is free and the first attempt succeeds: the log of
    [LockContext] has two directory checks, the second one made by the
    [TryLock] of the first iteration of the loop, after [ctx.Err()]. *)
Lemma LockContext_checks_directory_in_loop :
  LockContext Kernel.os Kernel.Dir 1 5 Runs.free
  = (Returned None, snd (LockContext Kernel.os Kernel.Dir 1 5 Runs.free)) /\
  trace (snd (LockContext Kernel.os Kernel.Dir 1 5 Runs.free))
  = [EvStat "/tmp/d" (inl {| IsDir := true |});
     EvCtxErr None;
     EvStat "/tmp/d" (inl {| IsDir := true |});
     EvOpenFile "/tmp/d/lck" open_flags 438
       (inl {| Fd := 3; Name := "/tmp/d/lck" |});
     EvFcntlFlock 3 F_SETLK (wrlck_ft 4242) None] /\
  count is_dir_check (trace (snd (LockContext Kernel.os Kernel.Dir 1 5 Runs.free)))
  <> 1%nat.
Proof.
  split; [vm_compute; reflexivity |]. split; [vm_compute; reflexivity |].
  vm_compute. discriminate.
Qed.

(** ** What holds all along a session *)

Section Invariant.

Context {W : Type}.
Variable os : OS W.
Variable filepath_Dir : string -> string.

(** A property of the state that the calls to the system keep is kept by
    the methods, and so by any session. *)
Variable I : St W -> Prop.

Hypothesis I_createLockDir : forall s r s',
    createLockDir os filepath_Dir (path (lck s)) s = (r, s') -> I s -> I s'.
Hypothesis I_lock : forall s r s',
    lock os false s = (r, s') -> I s -> I s'.
Hypothesis I_UnLock : forall s r s',
    UnLock os s = (r, s') -> I s -> I s'.
Hypothesis I_ctxErr : forall s r s',
    ctxErr os s = (r, s') -> I s -> I s'.
Hypothesis I_select : forall d s r s',
    selectDoneAfter os d s = (r, s') -> I s -> I s'.

Lemma TryLock_invariant (s s' : St W) (r : option error) :
  TryLock os filepath_Dir s = (r, s') -> I s -> I s'.
Proof.
  rewrite TryLock_unfold.
  destruct (createLockDir os filepath_Dir (path (lck s)) s) as [[e |] s1] eqn:Hc;
    intros H Hs; pose proof (I_createLockDir _ _ _ Hc Hs) as H1.
  - now inversion H; subst.
  - exact (I_lock _ _ _ H H1).
Qed.

Lemma try_loop_invariant (n : nat) (d : Duration) (s s' : St W)
  (r : Run (option error)) :
  try_loop os n (TryLock os filepath_Dir) d s = (r, s') -> I s -> I s'.
Proof.
  revert s. induction n as [| n IH]; intros s H Hs; simpl in H.
  - now inversion H; subst.
  - unfold bind at 1 in H.
    destruct (TryLock os filepath_Dir s) as [[e |] s1] eqn:Hfn;
      pose proof (TryLock_invariant _ _ _ Hfn Hs) as H1.
    + unfold bind at 1 in H.
      destruct (selectDoneAfter os d s1) as [[|] s2] eqn:Hsel;
        pose proof (I_select _ _ _ _ Hsel H1) as H2.
      * unfold bind, ret in H.
        destruct (ctxErr os s2) as [c s3] eqn:Hctx.
        inversion H; subst; clear H.
        exact (I_ctxErr _ _ _ Hctx H2).
      * exact (IH _ H H2).
    + now inversion H; subst.
Qed.

Lemma LockContext_invariant (n : nat) (d : Duration) (s s' : St W)
  (r : Run (option error)) :
  LockContext os filepath_Dir n d s = (r, s') -> I s -> I s'.
Proof.
  rewrite LockContext_unfold.
  destruct (createLockDir os filepath_Dir (path (lck s)) s) as [[e |] s1] eqn:Hc;
    intros H Hs; pose proof (I_createLockDir _ _ _ Hc Hs) as H1.
  - now inversion H; subst.
  - destruct (ctxErr os s1) as [[e |] s2] eqn:Hctx;
      pose proof (I_ctxErr _ _ _ Hctx H1) as H2.
    + now inversion H; subst.
    + exact (try_loop_invariant _ _ _ _ _ H H2).
Qed.

Lemma do_call_invariant (c : Call) (s : St W) :
  I s -> I (do_call os filepath_Dir c s).
Proof.
  intros Hs. destruct c as [| | n d]; simpl.
  - destruct (TryLock os filepath_Dir s) as [r s'] eqn:H.
    exact (TryLock_invariant _ _ _ H Hs).
  - destruct (UnLock os s) as [r s'] eqn:H.
    exact (I_UnLock _ _ _ H Hs).
  - destruct (LockContext os filepath_Dir n d s) as [r s'] eqn:H.
    exact (LockContext_invariant _ _ _ _ _ H Hs).
Qed.

Lemma session_invariant (cs : list Call) (s : St W) :
  I s -> I (session os filepath_Dir cs s).
Proof.
  revert s. induction cs as [| c cs IH]; intros s Hs; simpl.
  - exact Hs.
  - apply IH. now apply do_call_invariant.
Qed.

End Invariant.

Section SessionFacts.

Context {W : Type}.
Variable os : OS W.
Variable filepath_Dir : string -> string.

(** A call of the interface leaves the [Lock] alone and logs one event. *)
Lemma call_step {A : Type} (f : W -> A * W) (ev : A -> Event)
  (s s' : St W) (r : A) :
  call f ev s = (r, s') ->
  lck s' = lck s /\ trace s' = (trace s ++ [ev r])%list.
Proof.
  unfold call. destruct (f (world s)) as [r0 w1].
  intros H; inversion H; subst; simpl. auto.
Qed.

Lemma lock_run_path (cmd : Z) (l : Lock) (evs : list Event)
  (r : option error) (l' : Lock) :
  lock_run cmd l evs r l' -> path l' = path l.
Proof. intros H; destruct H; reflexivity. Qed.

(** Where the resource is present, [fd] is its descriptor. *)
Lemma lock_run_fd (cmd : Z) (l : Lock) (evs : list Event)
  (r : option error) (l' : Lock) :
  lock_run cmd l evs r l' ->
  (forall f, ReadWriteSeekCloser l = Some f -> fd l = Fd f) ->
  forall f, ReadWriteSeekCloser l' = Some f -> fd l' = Fd f.
Proof.
  intros H Hl f0; destruct H; simpl; try discriminate; auto.
  intros Heq; now inversion Heq.
Qed.

Lemma dir_run_fs (p dir : string) (evs : list Event) (r : option error) :
  dir_run dir evs r -> Forall (fs_call p dir) evs.
Proof.
  intros H; destruct H; repeat constructor.
Qed.

Lemma lock_run_fs (cmd : Z) (dir : string) (l : Lock) (evs : list Event)
  (r : option error) (l' : Lock) :
  lock_run cmd l evs r l' -> Forall (fs_call (path l) dir) evs.
Proof.
  intros H; destruct H; repeat constructor.
Qed.

Lemma dir_run_setlk (dir : string) (evs : list Event) (r : option error) :
  dir_run dir evs r -> Forall whole_file_setlk evs.
Proof.
  intros H; destruct H; repeat constructor.
Qed.

Lemma lock_run_setlk (l : Lock) (evs : list Event)
  (r : option error) (l' : Lock) :
  lock_run F_SETLK l evs r l' -> Forall whole_file_setlk evs.
Proof.
  intros H; destruct H; repeat constructor; simpl; auto.
Qed.

End SessionFacts.

Section SessionTheorems.

Context {W : Type}.
Variable os : OS W.
Variable filepath_Dir : string -> string.

(** X1. Whatever calls of [TryLock], [UnLock] and [LockContext] are made
    on the value [New p] gave, in any order and whatever the system
    answers: the path is still [p]; where the resource is present, [fd]
    is its descriptor; every file the [Lock] opened has been closed but
    the one it holds, so at most one file is open on its account. *)
Theorem session_keeps_one_file (cs : list Call) (p : string) (w : W) :
  path (lck (session os filepath_Dir cs (fresh p w))) = p /\
  (forall f,
      ReadWriteSeekCloser (lck (session os filepath_Dir cs (fresh p w))) = Some f ->
      fd (lck (session os filepath_Dir cs (fresh p w))) = Fd f) /\
  opened_files (trace (session os filepath_Dir cs (fresh p w)))
  = (closed_files (trace (session os filepath_Dir cs (fresh p w)))
     ++ resource (lck (session os filepath_Dir cs (fresh p w))))%list /\
  (List.length (opened_files (trace (session os filepath_Dir cs (fresh p w))))
   <= S (List.length (closed_files (trace (session os filepath_Dir cs (fresh p w))))))%nat.
Proof.
  pose (I := fun s : St W =>
               path (lck s) = p /\
               (forall f, ReadWriteSeekCloser (lck s) = Some f -> fd (lck s) = Fd f) /\
               balanced s).
  assert (HI : I (session os filepath_Dir cs (fresh p w))).
  { apply session_invariant; unfold I.
    - intros s r s' H (Hp & Hf & Hb).
      destruct (createLockDir_run _ _ _ _ _ _ H) as (Hl & _).
      rewrite Hl. repeat split; auto.
      exact (createLockDir_balanced _ _ _ _ _ _ H Hb).
    - intros s r s' H (Hp & Hf & Hb).
      destruct (lock_runs _ _ _ _ _ H) as (evs & _ & Hrun).
      split; [now rewrite (lock_run_path _ _ _ _ _ Hrun) |].
      split; [exact (lock_run_fd _ _ _ _ _ Hrun Hf) |].
      exact (lock_balanced _ _ _ _ _ H Hb).
    - intros s r s' H (Hp & Hf & Hb).
      pose proof (UnLock_balanced _ _ _ _ H Hb) as Hb'.
      rewrite UnLock_unfold in H. inversion H; subst; simpl. auto.
    - intros s r s' H (Hp & Hf & Hb).
      destruct (call_step _ _ _ _ _ H) as (Hl & _). rewrite Hl.
      repeat split; auto.
      exact (call_balanced _ _ _ _ _ H eq_refl eq_refl Hb).
    - intros d s r s' H (Hp & Hf & Hb).
      destruct (call_step _ _ _ _ _ H) as (Hl & _). rewrite Hl.
      repeat split; auto.
      exact (call_balanced _ _ _ _ _ H eq_refl eq_refl Hb).
    - repeat split; try reflexivity. intros f Hf; discriminate Hf. }
  destruct HI as (Hp & Hf & Hb).
  split; [exact Hp |]. split; [exact Hf |]. split; [exact Hb |].
  unfold balanced in Hb. rewrite Hb, length_app.
  unfold resource.
  destruct (ReadWriteSeekCloser (lck (session os filepath_Dir cs (fresh p w))));
    simpl; lia.
Qed.

(** X2. In any session on [New p] the only paths the package touches are
    [p] and its parent: every [os.Stat] and [os.MkdirAll] is on
    [filepath.Dir(p)], the latter with mode 0700, and every [os.OpenFile]
    is on [p] with [O_CREATE|O_RDWR|O_SYNC] and mode 0666. *)
Theorem session_touches_only_lock_path (cs : list Call) (p : string) (w : W) :
  Forall (fs_call p (filepath_Dir p))
    (trace (session os filepath_Dir cs (fresh p w))).
Proof.
  pose (I := fun s : St W =>
               path (lck s) = p /\ Forall (fs_call p (filepath_Dir p)) (trace s)).
  assert (HI : I (session os filepath_Dir cs (fresh p w))).
  { apply session_invariant; unfold I.
    - intros s r s' H (Hp & Hf).
      destruct (createLockDir_run _ _ _ _ _ _ H) as (Hl & evs & Ht & Hrun).
      rewrite Hl, Ht. split; [exact Hp |].
      apply Forall_app. split; [exact Hf |].
      rewrite Hp in Hrun. exact (dir_run_fs _ _ _ _ Hrun).
    - intros s r s' H (Hp & Hf).
      destruct (lock_runs _ _ _ _ _ H) as (evs & Ht & Hrun).
      split; [now rewrite (lock_run_path _ _ _ _ _ Hrun) |].
      rewrite Ht. apply Forall_app. split; [exact Hf |].
      rewrite <- Hp. exact (lock_run_fs _ _ _ _ _ _ Hrun).
    - intros s r s' H (Hp & Hf).
      rewrite UnLock_unfold in H. inversion H; subst; simpl.
      split; [reflexivity |].
      apply Forall_app. split; [exact Hf | repeat constructor].
    - intros s r s' H (Hp & Hf).
      destruct (call_step _ _ _ _ _ H) as (Hl & Ht). rewrite Hl, Ht.
      split; [exact Hp |].
      apply Forall_app. split; [exact Hf | repeat constructor].
    - intros d s r s' H (Hp & Hf).
      destruct (call_step _ _ _ _ _ H) as (Hl & Ht). rewrite Hl, Ht.
      split; [exact Hp |].
      apply Forall_app. split; [exact Hf | repeat constructor].
    - split; [reflexivity | constructor]. }
  exact (proj2 HI).
Qed.

(** X3. In any session every [fcntl] request the package makes is
    [F_SETLK], never the waiting [F_SETLKW], for an exclusive lock or an
    unlock of the whole file (start 0, length 0 from the start of the
    file): no call of the package waits for a lock. *)
Theorem session_never_waits_for_lock (cs : list Call) (p : string) (w : W) :
  Forall whole_file_setlk (trace (session os filepath_Dir cs (fresh p w))).
Proof.
  apply (session_invariant os filepath_Dir
           (fun s => Forall whole_file_setlk (trace s))); [| | | | | constructor].
  - intros s0 r s' H Hf.
    destruct (createLockDir_run _ _ _ _ _ _ H) as (_ & evs & Ht & Hrun).
    rewrite Ht. apply Forall_app. split; [exact Hf |].
    exact (dir_run_setlk _ _ _ Hrun).
  - intros s0 r s' H Hf.
    destruct (lock_runs _ _ _ _ _ H) as (evs & Ht & Hrun).
    rewrite Ht. apply Forall_app. split; [exact Hf |].
    exact (lock_run_setlk _ _ _ _ Hrun).
  - intros s0 r s' H Hf.
    rewrite UnLock_unfold in H. inversion H; subst; simpl.
    apply Forall_app. split; [exact Hf |].
    apply Forall_cons; [| apply Forall_nil].
    simpl. repeat split; auto.
  - intros s0 r s' H Hf.
    destruct (call_step _ _ _ _ _ H) as (_ & Ht). rewrite Ht.
    apply Forall_app. split; [exact Hf | repeat constructor].
  - intros d s0 r s' H Hf.
    destruct (call_step _ _ _ _ _ H) as (_ & Ht). rewrite Ht.
    apply Forall_app. split; [exact Hf | repeat constructor].
Qed.

End SessionTheorems.

(** ** More on the directory check and on one attempt *)

Ltac in_events :=
  repeat match goal with
         | H : In _ (_ :: _) |- _ => destruct H as [H | H]
         | H : In _ nil |- _ => destruct H
         | H : _ \/ _ |- _ => destruct H as [H | H]
         | H : False |- _ => destruct H
         | H : _ = _ :> Event |- _ =>
             (discriminate H || (inversion H; clear H; subst))
         end.

Section CallFacts.

Context {W : Type}.
Variable os : OS W.
Variable filepath_Dir : string -> string.

(** The two halves of [TryLock] and their events. *)
Lemma TryLock_events (s s' : St W) (r : option error) :
  TryLock os filepath_Dir s = (r, s') ->
  exists evs1 evs2 r1,
    trace s' = (trace s ++ evs1 ++ evs2)%list /\
    dir_run (filepath_Dir (path (lck s))) evs1 r1 /\
    ((r1 <> None /\ r = r1 /\ evs2 = nil /\ lck s' = lck s) \/
     (r1 = None /\ lock_run F_SETLK (lck s) evs2 r (lck s'))).
Proof.
  rewrite TryLock_unfold.
  destruct (createLockDir os filepath_Dir (path (lck s)) s) as [[e |] s1] eqn:Hc;
    destruct (createLockDir_run _ _ _ _ _ _ Hc) as (Hl & evs1 & Ht & Hrun);
    intros H.
  - inversion H; subst; clear H.
    exists evs1, nil, (Some e). rewrite app_nil_r.
    split; [exact Ht |]. split; [exact Hrun |].
    left. repeat split; auto. discriminate.
  - destruct (lock_runs _ _ _ _ _ H) as (evs2 & Ht2 & Hrun2).
    exists evs1, evs2, None.
    split; [now rewrite Ht2, Ht, app_assoc |]. split; [exact Hrun |].
    right. split; [reflexivity |]. now rewrite <- Hl.
Qed.

Lemma dir_run_outcomes (dir : string) (evs : list Event) (r : option error) :
  dir_run dir evs r ->
  (r = None ->
   (exists info, evs = [EvStat dir (inl info)] /\ IsDir info = true) \/
   (exists err, evs = [EvStat dir (inr err); EvMkdirAll dir lockDirPerm None] /\
                os_IsNotExist err = true)) /\
  (forall x perm rr,
      In (EvMkdirAll x perm rr) evs ->
      x = dir /\ perm = lockDirPerm /\ rr = r /\
      exists err, evs = [EvStat dir (inr err); EvMkdirAll dir lockDirPerm r] /\
                  os_IsNotExist err = true) /\
  (forall err,
      In (EvStat dir (inr err)) evs ->
      os_IsNotExist err = false ->
      r = Some err /\ evs = [EvStat dir (inr err)]).
Proof.
  intros H.
  destruct H as [info Hd | info Hd | err r Hne | err Hne];
    (split; [| split]).
  - intros _. left. now exists info.
  - intros x perm rr Hin. simpl in Hin. in_events.
  - intros err Hin. simpl in Hin. in_events.
  - discriminate.
  - intros x perm rr Hin. simpl in Hin. in_events.
  - intros err Hin. simpl in Hin. in_events.
  - intros Hr; subst. right. now exists err.
  - intros x perm rr Hin. simpl in Hin. in_events.
    repeat split. now exists err.
  - intros err0 Hin Hne0. simpl in Hin. in_events. congruence.
  - discriminate.
  - intros x perm rr Hin. simpl in Hin. in_events.
  - intros err0 Hin Hne0. simpl in Hin. in_events. auto.
Qed.


(** An attempt that returns nil ends on the granted request, made on
    the descriptor [fd] holds afterwards, and holds the resource. *)
Lemma lock_run_nil (cmd : Z) (l : Lock) (evs : list Event) (l' : Lock) :
  lock_run cmd l evs None l' ->
  ReadWriteSeekCloser l' <> None /\
  exists pre pid,
    evs = (pre ++ [EvFcntlFlock (fd l') cmd (wrlck_ft pid) None])%list.
Proof.
  intros H. remember None as r eqn:Hr.
  destruct H as [err Hres | f pid Hres | f pid e0 rc Hres
                | f pid Hres | f pid e0 rc Hres]; try discriminate.
  - split; [discriminate |].
    exists [EvOpenFile (path l) open_flags 438 (inl f)], pid. reflexivity.
  - split; [congruence |]. exists nil, pid. reflexivity.
Qed.


(** The error of a directory check is the one its last call reported,
    or the one that says the parent is not a directory. *)
Lemma dir_run_error (dir : string) (evs : list Event) (e : error) :
  dir_run dir evs (Some e) ->
  exists pre ev,
    evs = (pre ++ [ev])%list /\
    (reported ev = Some e \/
     exists info, ev = EvStat dir (inl info) /\ IsDir info = false /\
                  e = errorString ("already exists and is not directory: " ++ dir)).
Proof.
  intros H. remember (Some e) as r eqn:Hr.
  destruct H as [info Hd | info Hd | err r Hne | err Hne]; try discriminate.
  - inversion Hr; subst. exists nil, (EvStat dir (inl info)).
    split; [reflexivity |]. right. now exists info.
  - subst. exists [EvStat dir (inr err)], (EvMkdirAll dir lockDirPerm (Some e)).
    split; [reflexivity |]. now left.
  - inversion Hr; subst. exists nil, (EvStat dir (inr e)).
    split; [reflexivity |]. now left.
Qed.

(** The error of an attempt is the one [os.OpenFile] or the lock request
    reported; after it comes at most the [Close]. *)
Lemma lock_run_error (cmd : Z) (l : Lock) (evs : list Event)
  (e : error) (l' : Lock) :
  lock_run cmd l evs (Some e) l' ->
  exists pre ev post,
    evs = (pre ++ ev :: post)%list /\
    reported ev = Some e /\
    is_close ev = false /\
    forallb is_close post = true.
Proof.
  intros H. remember (Some e) as r eqn:Hr.
  destruct H as [err Hres | f pid Hres | f pid e0 rc Hres
                | f pid Hres | f pid e0 rc Hres];
    try discriminate; inversion Hr; subst.
  - exists nil, (EvOpenFile (path l) open_flags 438 (inr e)), nil.
    repeat split.
  - exists [EvOpenFile (path l) open_flags 438 (inl f)],
      (EvFcntlFlock (Fd f) cmd (wrlck_ft pid) (Some e)), [EvClose f rc].
    repeat split.
  - exists nil, (EvFcntlFlock (fd l) cmd (wrlck_ft pid) (Some e)), [EvClose f rc].
    repeat split.
Qed.

(** A [TryLock] that returns nil leaves the resource present. *)
Lemma TryLock_nil_present (s s' : St W) :
  TryLock os filepath_Dir s = (None, s') ->
  exists f, ReadWriteSeekCloser (lck s') = Some f.
Proof.
  intros H.
  destruct (TryLock_events _ _ _ H)
    as (evs1 & evs2 & r1 & _ & _ & [(Hr1 & Hr & _) | (_ & Hrun)]).
  - congruence.
  - destruct (lock_run_nil _ _ _ _ Hrun) as (Hres & _).
    destruct (ReadWriteSeekCloser (lck s')) as [f |]; [now exists f | congruence].
Qed.

End CallFacts.

Section CallTheorems.

Context {W : Type}.
Variable os : OS W.
Variable filepath_Dir : string -> string.

(** X4. [createLockDir] leaves the [Lock] alone.  It returns nil only
    when [os.Stat] showed the parent to be a directory or when the
    parent was missing and [os.MkdirAll] made it; it calls [os.MkdirAll]
    only after [os.Stat] failed with a not-exist error, on the parent
    with mode 0700, and returns its answer as it is; any other failure of
    [os.Stat] is returned as it is, with no attempt to create. *)
Theorem createLockDir_creates_only_missing_dir
  (p : string) (s s' : St W) (r : option error) :
  createLockDir os filepath_Dir p s = (r, s') ->
  lck s' = lck s /\
  exists evs,
    trace s' = (trace s ++ evs)%list /\
    (r = None ->
     (exists info, evs = [EvStat (filepath_Dir p) (inl info)] /\ IsDir info = true) \/
     (exists err,
         evs = [EvStat (filepath_Dir p) (inr err);
                EvMkdirAll (filepath_Dir p) lockDirPerm None] /\
         os_IsNotExist err = true)) /\
    (forall x perm rr,
        In (EvMkdirAll x perm rr) evs ->
        x = filepath_Dir p /\ perm = lockDirPerm /\ rr = r /\
        exists err,
          evs = [EvStat (filepath_Dir p) (inr err);
                 EvMkdirAll (filepath_Dir p) lockDirPerm r] /\
          os_IsNotExist err = true) /\
    (forall err,
        In (EvStat (filepath_Dir p) (inr err)) evs ->
        os_IsNotExist err = false ->
        r = Some err /\ evs = [EvStat (filepath_Dir p) (inr err)]).
Proof.
  intros H.
  destruct (createLockDir_run _ _ _ _ _ _ H) as (Hl & evs & Ht & Hrun).
  split; [exact Hl |]. exists evs. split; [exact Ht |].
  exact (dir_run_outcomes _ _ _ Hrun).
Qed.

(** X5. When [TryLock] returns nil, the last call it made is a lock
    request that was granted: [F_SETLK], exclusive, whole file, on the
    descriptor now in [fd]; and the resource is present. *)
Theorem TryLock_nil_means_granted (s s' : St W) :
  TryLock os filepath_Dir s = (None, s') ->
  ReadWriteSeekCloser (lck s') <> None /\
  exists pre pid,
    trace s' =
    (pre ++ [EvFcntlFlock (fd (lck s')) F_SETLK (wrlck_ft pid) None])%list.
Proof.
  intros H.
  destruct (TryLock_events _ _ _ _ _ H)
    as (evs1 & evs2 & r1 & Ht & _ & [(Hr1 & Hr & _) | (_ & Hrun)]).
  - congruence.
  - destruct (lock_run_nil _ _ _ _ Hrun) as (Hres & pre & pid & Hev).
    split; [exact Hres |].
    exists (trace s ++ evs1 ++ pre)%list, pid.
    now rewrite Ht, Hev, <- !app_assoc.
Qed.


(** X9. The error [TryLock] returns is the error one of its calls
    reported, as it is: that of [os.Stat], [os.MkdirAll], [os.OpenFile]
    or the lock request (or the one that says the parent is not a
    directory); that call is the last one but for a [Close], whose own
    error is never returned. *)
Theorem TryLock_error_is_reported (s s' : St W) (e : error) :
  TryLock os filepath_Dir s = (Some e, s') ->
  exists pre ev post,
    trace s' = (trace s ++ pre ++ ev :: post)%list /\
    is_close ev = false /\
    forallb is_close post = true /\
    (reported ev = Some e \/
     exists info,
       ev = EvStat (filepath_Dir (path (lck s))) (inl info) /\
       IsDir info = false /\
       e = errorString ("already exists and is not directory: "
                        ++ filepath_Dir (path (lck s)))).
Proof.
  intros H.
  destruct (TryLock_events _ _ _ _ _ H)
    as (evs1 & evs2 & r1 & Ht & Hdir & [(Hr1 & Hr & He2 & _) | (Hr1 & Hrun)]).
  - subst r1 evs2.
    destruct (dir_run_error _ _ _ Hdir) as (pre & ev & Hev & Hrep).
    exists pre, ev, nil. rewrite Ht, Hev, app_nil_r.
    split; [reflexivity |]. split; [| split; [reflexivity | exact Hrep]].
    destruct Hrep as [Hrep | (info & Hi & _)]; [| now subst].
    destruct ev; simpl in *; try reflexivity; discriminate.
  - destruct (lock_run_error _ _ _ _ _ Hrun) as (pre & ev & post & Hev & Hrep & Hnc & Hpost).
    exists (evs1 ++ pre)%list, ev, post.
    split; [now rewrite Ht, Hev, <- app_assoc |].
    split; [exact Hnc |]. split; [exact Hpost |]. now left.
Qed.

End CallTheorems.

(** ** More on the retry loop *)

Section LoopTheorems.

Context {W : Type}.
Variable os : OS W.
Variable filepath_Dir : string -> string.

(** Events that do not look at the context hold no [select]. *)
Lemma no_ctx_no_select (d : Duration) (evs : list Event) :
  count is_ctx evs = 0%nat ->
  Forall (waits_for d) evs /\ count is_done evs = 0%nat.
Proof.
  unfold count. induction evs as [| ev evs IH]; simpl.
  - intros _. split; [constructor | reflexivity].
  - destruct ev; simpl; try discriminate; intros H;
      destruct (IH H) as (Hf & Hc); (split; [constructor; simpl; auto | exact Hc]).
Qed.

Lemma count_one (p : Event -> bool) (ev : Event) :
  count p [ev] = if p ev then 1%nat else 0%nat.
Proof. unfold count; simpl. now destruct (p ev). Qed.

(** The loop: every [select] waits for the delay of the call, and one
    that takes [ctx.Done()] is followed by [ctx.Err()] and the return. *)
Lemma try_loop_stops_at_done (n : nat) (d : Duration) (s s' : St W)
  (res : Run (option error)) :
  try_loop os n (TryLock os filepath_Dir) d s = (res, s') ->
  exists evs,
    trace s' = (trace s ++ evs)%list /\
    Forall (waits_for d) evs /\
    (count is_done evs = 0%nat \/
     exists pre c,
       evs = (pre ++ [EvSelect d CtxDone; EvCtxErr c])%list /\
       count is_done pre = 0%nat /\
       res = Returned c).
Proof.
  revert s. induction n as [| n IH]; intros s H; simpl in H.
  - inversion H; subst. exists nil. rewrite app_nil_r.
    split; [reflexivity |]. split; [constructor | now left].
  - unfold bind at 1 in H.
    destruct (TryLock os filepath_Dir s) as [[e |] s1] eqn:Hfn;
      destruct (TryLock_counts _ _ _ _ _ Hfn) as (evsT & HtT & _ & HxT);
      destruct (no_ctx_no_select d _ HxT) as (HfT & HcT).
    + unfold bind at 1 in H.
      destruct (selectDoneAfter os d s1) as [[|] s2] eqn:Hsel;
        destruct (call_step _ _ _ _ _ Hsel) as (_ & Ht2).
      * unfold bind, ret in H.
        destruct (ctxErr os s2) as [c s3] eqn:Hctx.
        destruct (call_step _ _ _ _ _ Hctx) as (_ & Ht3).
        inversion H; subst; clear H.
        exists (evsT ++ [EvSelect d CtxDone; EvCtxErr c])%list.
        split; [now rewrite Ht3, Ht2, HtT, <- !app_assoc |].
        split.
        { apply Forall_app. split; [exact HfT |]. repeat constructor. }
        right. exists evsT, c. auto.
      * destruct (IH _ H) as (evs & Ht & Hf & Hd).
        exists (evsT ++ [EvSelect d TimerFired] ++ evs)%list.
        split; [now rewrite Ht, Ht2, HtT, <- !app_assoc |].
        split.
        { apply Forall_app. split; [exact HfT |].
          apply Forall_app. split; [repeat constructor | exact Hf]. }
        destruct Hd as [Hd | (pre & c & Hev & Hpre & Hres)].
        -- left. rewrite !count_app, HcT, Hd, count_one. reflexivity.
        -- right. exists (evsT ++ [EvSelect d TimerFired] ++ pre)%list, c.
           split; [now rewrite Hev, <- !app_assoc |].
           split; [| exact Hres].
           rewrite !count_app, HcT, Hpre, count_one. reflexivity.
    + inversion H; subst; clear H.
      exists evsT. split; [exact HtT |]. split; [exact HfT | now left].
Qed.

(** X7. [LockContext] never returns the error of an attempt.  What it
    returns is the error of the directory check it makes on entry (and
    then it has done nothing else), or what [ctx.Err()] answered in its
    last call, or nil right after a lock request that was granted, the
    resource present. *)
Theorem LockContext_returns_no_attempt_error
  (n : nat) (d : Duration) (s s' : St W) (r : option error) :
  LockContext os filepath_Dir n d s = (Returned r, s') ->
  (exists e,
      r = Some e /\
      createLockDir os filepath_Dir (path (lck s)) s = (Some e, s')) \/
  (exists pre, trace s' = (pre ++ [EvCtxErr r])%list) \/
  (r = None /\
   ReadWriteSeekCloser (lck s') <> None /\
   exists pre d0 cmd ft, trace s' = (pre ++ [EvFcntlFlock d0 cmd ft None])%list).
Proof.
  rewrite LockContext_unfold.
  destruct (createLockDir os filepath_Dir (path (lck s)) s) as [[e |] s1] eqn:Hc.
  - intros H; inversion H; subst. left. now exists e.
  - destruct (ctxErr os s1) as [[e |] s2] eqn:Hctx.
    + intros H; inversion H; subst. right; left.
      destruct (call_step _ _ _ _ _ Hctx) as (_ & Ht). now exists (trace s1).
    + intros H.
      destruct (try_loop_returned _ _ _ _ _ _ _ H)
        as (k & sk & _ & _ & [(Hfn & Hr) | (e & sa & sb & _ & _ & Herr)]).
      * right; right. split; [exact Hr |].
        destruct (TryLock_nil_present _ _ _ _ Hfn) as (f & Hf).
        split; [congruence |].
        exact (TryLock_success_last _ _ _ _ Hfn).
      * right; left.
        destruct (call_step _ _ _ _ _ Herr) as (_ & Ht). now exists (trace sb).
Qed.

(** X8. In a call of [LockContext], however far it has got, every
    [select] waits for the [retryDelay] of the call, and a [select] that
    takes [ctx.Done()] ends the call: [ctx.Err()] is the one call that
    follows, its answer is returned, and no attempt is made after it. *)
Theorem LockContext_stops_at_done
  (n : nat) (d : Duration) (s s' : St W) (res : Run (option error)) :
  LockContext os filepath_Dir n d s = (res, s') ->
  exists evs,
    trace s' = (trace s ++ evs)%list /\
    Forall (waits_for d) evs /\
    (count is_done evs = 0%nat \/
     exists pre c,
       evs = (pre ++ [EvSelect d CtxDone; EvCtxErr c])%list /\
       count is_done pre = 0%nat /\
       res = Returned c).
Proof.
  rewrite LockContext_unfold.
  destruct (createLockDir os filepath_Dir (path (lck s)) s) as [[e |] s1] eqn:Hc;
    destruct (createLockDir_run _ _ _ _ _ _ Hc) as (_ & evs0 & Ht0 & Hrun);
    destruct (dir_run_counts _ _ _ Hrun) as (_ & Hx0 & _);
    destruct (no_ctx_no_select d _ Hx0) as (Hf0 & Hc0).
  - intros H; inversion H; subst. exists evs0. auto.
  - destruct (ctxErr os s1) as [[e |] s2] eqn:Hctx;
      destruct (call_step _ _ _ _ _ Hctx) as (_ & Ht1); intros H.
    + inversion H; subst; clear H.
      exists (evs0 ++ [EvCtxErr (Some e)])%list.
      split; [now rewrite Ht1, Ht0, <- app_assoc |].
      split; [apply Forall_app; split; [exact Hf0 | repeat constructor] |].
      left. now rewrite count_app, Hc0.
    + destruct (try_loop_stops_at_done _ _ _ _ _ H) as (evs & Ht & Hf & Hd).
      exists (evs0 ++ [EvCtxErr None] ++ evs)%list.
      split; [now rewrite Ht, Ht1, Ht0, <- !app_assoc |].
      split.
      { apply Forall_app. split; [exact Hf0 |].
        apply Forall_app. split; [repeat constructor | exact Hf]. }
      destruct Hd as [Hd | (pre & c & Hev & Hpre & Hres)].
      * left. now rewrite !count_app, Hc0, Hd.
      * right. exists (evs0 ++ [EvCtxErr None] ++ pre)%list, c.
        split; [now rewrite Hev, <- !app_assoc |].
        split; [| exact Hres].
        now rewrite !count_app, Hc0, Hpre.
Qed.

End LoopTheorems.

(** ** The descriptor [UnLock] uses *)

Section LastOpened.

Context {W : Type}.
Variable os : OS W.
Variable filepath_Dir : string -> string.

Lemma last_app_default (A : Type) (l1 l2 : list A) (d : A) :
  last (l1 ++ l2) d = last l2 (last l1 d).
Proof.
  revert l1. induction l2 as [| b l2 IH] using rev_ind; intros l1.
  - now rewrite app_nil_r.
  - now rewrite app_assoc, !last_last.
Qed.

Lemma lock_run_last_fd (cmd : Z) (l : Lock) (evs : list Event)
  (r : option error) (l' : Lock) :
  lock_run cmd l evs r l' ->
  fd l' = last (map Fd (opened_files evs)) (fd l).
Proof. intros H; destruct H; reflexivity. Qed.

(** X10. In any session on [New p], [fd] is the descriptor number of the
    file the [Lock] opened last, whether that file is still open or was
    closed by a failed attempt, and 0 as long as no [os.OpenFile] has
    succeeded: this is the descriptor a call of [UnLock] sends its
    request to. *)
Theorem session_fd_is_last_opened (cs : list Call) (p : string) (w : W) :
  fd (lck (session os filepath_Dir cs (fresh p w)))
  = last (map Fd (opened_files (trace (session os filepath_Dir cs (fresh p w))))) 0 /\
  trace (snd (UnLock os (session os filepath_Dir cs (fresh p w))))
  = (trace (session os filepath_Dir cs (fresh p w))
     ++ [EvFcntlFlock
           (last (map Fd (opened_files
                            (trace (session os filepath_Dir cs (fresh p w))))) 0)
           F_SETLK unlock_ft
           (fst (UnLock os (session os filepath_Dir cs (fresh p w))))])%list.
Proof.
  assert (HI : fd (lck (session os filepath_Dir cs (fresh p w)))
               = last (map Fd (opened_files
                                 (trace (session os filepath_Dir cs (fresh p w))))) 0).
  { apply (session_invariant os filepath_Dir
             (fun s => fd (lck s) = last (map Fd (opened_files (trace s))) 0)).
    - intros s r s' H Hs.
      destruct (createLockDir_run _ _ _ _ _ _ H) as (Hl & evs & Ht & Hrun).
      destruct (dir_run_counts _ _ _ Hrun) as (_ & _ & _ & _ & Ho & _).
      now rewrite Hl, Ht, opened_files_app, Ho, app_nil_r.
    - intros s r s' H Hs.
      destruct (lock_runs _ _ _ _ _ H) as (evs & Ht & Hrun).
      rewrite Ht, opened_files_app, map_app, last_app_default, <- Hs.
      exact (lock_run_last_fd _ _ _ _ _ Hrun).
    - intros s r s' H Hs.
      rewrite UnLock_unfold in H. inversion H; subst; simpl.
      now rewrite opened_files_app, app_nil_r.
    - intros s r s' H Hs.
      destruct (call_step _ _ _ _ _ H) as (Hl & Ht).
      now rewrite Hl, Ht, opened_files_app, app_nil_r.
    - intros d s r s' H Hs.
      destruct (call_step _ _ _ _ _ H) as (Hl & Ht).
      now rewrite Hl, Ht, opened_files_app, app_nil_r.
    - reflexivity. }
  split; [exact HI |].
  rewrite UnLock_unfold. simpl. now rewrite HI.
Qed.

End LastOpened.

(** ** More concrete runs *)

(** The parent [/tmp/new] is missing: the check creates it with mode
    0700 and returns nil. *)
Lemma createLockDir_missing_dir_run :
  createLockDir Kernel.os Kernel.Dir "/tmp/new/lck" Runs.missing_dir
  = (None, Runs.checked Runs.missing_dir) /\
  lck (Runs.checked Runs.missing_dir) = New "/tmp/new/lck" /\
  trace (Runs.checked Runs.missing_dir)
  = [EvStat "/tmp/new" (inr (PathError "stat" "/tmp/new" ENOENT));
     EvMkdirAll "/tmp/new" 448 None].
Proof.
  assert (H : createLockDir Kernel.os Kernel.Dir "/tmp/new/lck" Runs.missing_dir
              = (None, Runs.checked Runs.missing_dir))
    by (vm_compute; reflexivity).
  destruct (createLockDir_creates_only_missing_dir Kernel.os Kernel.Dir _ _ _ _ H)
    as (Hl & _).
  split; [exact H |]. split; [exact Hl |]. vm_compute; reflexivity.
Defined.

(** The lock is free: [TryLock] returns nil on the granted request on
    descriptor 3, which [fd] holds. *)
Lemma TryLock_granted_run :
  TryLock Kernel.os Kernel.Dir Runs.free
  = (None, snd (TryLock Kernel.os Kernel.Dir Runs.free)) /\
  ReadWriteSeekCloser (lck (snd (TryLock Kernel.os Kernel.Dir Runs.free))) <> None /\
  fd (lck (snd (TryLock Kernel.os Kernel.Dir Runs.free))) = 3.
Proof.
  assert (H : TryLock Kernel.os Kernel.Dir Runs.free
              = (None, snd (TryLock Kernel.os Kernel.Dir Runs.free)))
    by (vm_compute; reflexivity).
  destruct (TryLock_nil_means_granted Kernel.os Kernel.Dir _ _ H) as (Hres & _).
  split; [exact H |]. split; [exact Hres |]. vm_compute; reflexivity.
Defined.


(** The lock stays held elsewhere: [TryLock] returns the [EAGAIN] of its
    lock request, the last call but for the [Close]. *)
Lemma TryLock_error_run :
  TryLock Kernel.os Kernel.Dir Runs.contended
  = (Some (Errno EAGAIN), snd (TryLock Kernel.os Kernel.Dir Runs.contended)) /\
  exists pre ev post,
    trace (snd (TryLock Kernel.os Kernel.Dir Runs.contended))
    = (trace Runs.contended ++ pre ++ ev :: post)%list /\
    is_close ev = false /\
    forallb is_close post = true.
Proof.
  assert (H : TryLock Kernel.os Kernel.Dir Runs.contended
              = (Some (Errno EAGAIN),
                 snd (TryLock Kernel.os Kernel.Dir Runs.contended)))
    by (vm_compute; reflexivity).
  destruct (TryLock_error_is_reported Kernel.os Kernel.Dir _ _ _ H)
    as (pre & ev & post & Ht & Hnc & Hpost & _).
  split; [exact H |]. exists pre, ev, post. auto.
Defined.

(** The lock stays held elsewhere until the deadline: what
    [LockContext] returns is the answer of its last call, [ctx.Err()]. *)
Lemma LockContext_result_run :
  LockContext Kernel.os Kernel.Dir 7 5 Runs.contended
  = (Returned (Some DeadlineExceeded),
     snd (LockContext Kernel.os Kernel.Dir 7 5 Runs.contended)) /\
  exists pre,
    trace (snd (LockContext Kernel.os Kernel.Dir 7 5 Runs.contended))
    = (pre ++ [EvCtxErr (Some DeadlineExceeded)])%list.
Proof.
  assert (H : LockContext Kernel.os Kernel.Dir 7 5 Runs.contended
              = (Returned (Some DeadlineExceeded),
                 snd (LockContext Kernel.os Kernel.Dir 7 5 Runs.contended)))
    by (vm_compute; reflexivity).
  split; [exact H |].
  destruct (LockContext_returns_no_attempt_error Kernel.os Kernel.Dir _ _ _ _ _ H)
    as [(e & _ & Hc) | [Hctx | (Hr & _)]].
  - exfalso. vm_compute in Hc. discriminate Hc.
  - exact Hctx.
  - discriminate Hr.
Defined.

(** The same call: one [select] took [ctx.Done()], the second, and the
    call ended there. *)
Lemma LockContext_done_run :
  LockContext Kernel.os Kernel.Dir 7 5 Runs.contended
  = (fst (LockContext Kernel.os Kernel.Dir 7 5 Runs.contended),
     snd (LockContext Kernel.os Kernel.Dir 7 5 Runs.contended)) /\
  count is_done (trace (snd (LockContext Kernel.os Kernel.Dir 7 5 Runs.contended)))
  = 1%nat /\
  exists evs,
    trace (snd (LockContext Kernel.os Kernel.Dir 7 5 Runs.contended))
    = (trace Runs.contended ++ evs)%list /\
    Forall (waits_for 5) evs.
Proof.
  assert (H : LockContext Kernel.os Kernel.Dir 7 5 Runs.contended
              = (fst (LockContext Kernel.os Kernel.Dir 7 5 Runs.contended),
                 snd (LockContext Kernel.os Kernel.Dir 7 5 Runs.contended)))
    by (vm_compute; reflexivity).
  destruct (LockContext_stops_at_done Kernel.os Kernel.Dir _ _ _ _ _ H)
    as (evs & Ht & Hf & _).
  split; [exact H |]. split; [vm_compute; reflexivity |].
  exists evs. auto.
Defined.

(** ** A call that has not returned *)

Section StillRunning.

Context {W : Type}.
Variable os : OS W.
Variable filepath_Dir : string -> string.

Lemma no_ctx_no_timer (evs : list Event) :
  count is_ctx evs = 0%nat -> count is_timer evs = 0%nat.
Proof.
  unfold count. induction evs as [| ev evs IH]; simpl; [reflexivity |].
  destruct ev; simpl; try discriminate; exact IH.
Qed.

Lemma dir_run_not_granted (dir : string) (evs : list Event) (r : option error) :
  dir_run dir evs r -> count is_granted evs = 0%nat.
Proof. intros H; destruct H; reflexivity. Qed.

Lemma lock_run_error_not_granted (cmd : Z) (l : Lock) (evs : list Event)
  (e : error) (l' : Lock) :
  lock_run cmd l evs (Some e) l' -> count is_granted evs = 0%nat.
Proof.
  intros H. remember (Some e) as r eqn:Hr.
  destruct H; try discriminate; reflexivity.
Qed.

(** A [TryLock] that fails was granted no lock. *)
Lemma TryLock_error_not_granted (s s' : St W) (e : error) :
  TryLock os filepath_Dir s = (Some e, s') ->
  exists evs,
    trace s' = (trace s ++ evs)%list /\
    count is_granted evs = 0%nat /\
    count is_dir_check evs = 1%nat /\
    count is_ctx evs = 0%nat.
Proof.
  intros H.
  destruct (TryLock_counts _ _ _ _ _ H) as (evs & Ht & Hd & Hx).
  exists evs. split; [exact Ht |]. split; [| auto].
  destruct (TryLock_events _ _ _ _ _ H)
    as (evs1 & evs2 & r1 & Ht' & Hdir & [(_ & _ & He2 & _) | (_ & Hrun)]).
  - subst evs2. rewrite app_nil_r in Ht'.
    rewrite Ht in Ht'. apply app_inv_head in Ht'. subst evs.
    exact (dir_run_not_granted _ _ _ Hdir).
  - rewrite Ht in Ht'. apply app_inv_head in Ht'. subst evs.
    rewrite count_app, (dir_run_not_granted _ _ _ Hdir),
      (lock_run_error_not_granted _ _ _ _ _ Hrun).
    reflexivity.
Qed.

Lemma try_loop_still_running (n : nat) (d : Duration) (s s' : St W) :
  try_loop os n (TryLock os filepath_Dir) d s = (Looping, s') ->
  exists evs,
    trace s' = (trace s ++ evs)%list /\
    count is_timer evs = n /\
    count is_done evs = 0%nat /\
    count is_dir_check evs = n /\
    count is_granted evs = 0%nat.
Proof.
  revert s. induction n as [| n IH]; intros s H; simpl in H.
  - inversion H; subst. exists nil. rewrite app_nil_r. repeat split.
  - unfold bind at 1 in H.
    destruct (TryLock os filepath_Dir s) as [[e |] s1] eqn:Hfn;
      [| discriminate].
    destruct (TryLock_error_not_granted _ _ _ Hfn) as (evsT & HtT & HgT & HdT & HxT).
    destruct (no_ctx_no_select d _ HxT) as (_ & HcT).
    pose proof (no_ctx_no_timer _ HxT) as HtiT.
    unfold bind at 1 in H.
    destruct (selectDoneAfter os d s1) as [[|] s2] eqn:Hsel;
      destruct (call_step _ _ _ _ _ Hsel) as (_ & Ht2).
    + unfold bind, ret in H. destruct (ctxErr os s2) as [c s3]. discriminate.
    + destruct (IH _ H) as (evs & Ht & Hti & Hdo & Hdi & Hg).
      exists (evsT ++ [EvSelect d TimerFired] ++ evs)%list.
      split; [now rewrite Ht, Ht2, HtT, <- !app_assoc |].
      rewrite !count_app, !count_one, HtiT, HcT, HdT, HgT, Hti, Hdo, Hdi, Hg.
      simpl. repeat split; lia.
Qed.

(** X11. A call of [LockContext] that has not returned after [n]
    iterations of its loop has made [n] attempts, each with its
    directory check and none of them granted the lock, and has waited
    [n] times for the timer, no [select] taking [ctx.Done()]: the call
    goes on only as long as attempts fail and the timer comes first, and
    nothing else bounds the number of attempts. *)
Theorem LockContext_still_running
  (n : nat) (d : Duration) (s s' : St W) :
  LockContext os filepath_Dir n d s = (Looping, s') ->
  exists evs,
    trace s' = (trace s ++ evs)%list /\
    count is_timer evs = n /\
    count is_done evs = 0%nat /\
    count is_dir_check evs = S n /\
    count is_granted evs = 0%nat.
Proof.
  rewrite LockContext_unfold.
  destruct (createLockDir os filepath_Dir (path (lck s)) s) as [[e |] s1] eqn:Hc;
    [discriminate |].
  destruct (createLockDir_run _ _ _ _ _ _ Hc) as (_ & evs0 & Ht0 & Hrun).
  destruct (dir_run_counts _ _ _ Hrun) as (Hd0 & Hx0 & _).
  destruct (no_ctx_no_select d _ Hx0) as (_ & Hc0).
  pose proof (no_ctx_no_timer _ Hx0) as Hti0.
  pose proof (dir_run_not_granted _ _ _ Hrun) as Hg0.
  destruct (ctxErr os s1) as [[e |] s2] eqn:Hctx; [discriminate |].
  destruct (call_step _ _ _ _ _ Hctx) as (_ & Ht1).
  intros H.
  destruct (try_loop_still_running _ _ _ _ H) as (evs & Ht & Hti & Hdo & Hdi & Hg).
  exists (evs0 ++ [EvCtxErr None] ++ evs)%list.
  split; [now rewrite Ht, Ht1, Ht0, <- !app_assoc |].
  rewrite !count_app, !count_one, Hti0, Hc0, Hd0, Hg0, Hti, Hdo, Hdi, Hg.
  simpl. repeat split; lia.
Qed.

End StillRunning.

(** The lock is held elsewhere and the context has no deadline: after
    four iterations the call is still going. *)
Lemma LockContext_still_running_run :
  LockContext Kernel.os Kernel.Dir 4 5 Runs.held
  = (Looping, snd (LockContext Kernel.os Kernel.Dir 4 5 Runs.held)) /\
  exists evs,
    trace (snd (LockContext Kernel.os Kernel.Dir 4 5 Runs.held))
    = (trace Runs.held ++ evs)%list /\
    count is_timer evs = 4%nat /\
    count is_dir_check evs = 5%nat.
Proof.
  assert (H : LockContext Kernel.os Kernel.Dir 4 5 Runs.held
              = (Looping, snd (LockContext Kernel.os Kernel.Dir 4 5 Runs.held)))
    by (vm_compute; reflexivity).
  destruct (LockContext_still_running Kernel.os Kernel.Dir _ _ _ _ H)
    as (evs & Ht & Hti & _ & Hdi & _).
  split; [exact H |]. exists evs.
  split; [exact Ht |]. split; [exact Hti | exact Hdi].
Defined.
